(** * Runner assignment and fairness engine of functions/index.js

    A shallow embedding of the Cloud Functions that assign delivery runners
    to orders and keep the runners' counters, and the properties of the
    specification checked against it.

    The repository holds two revisions of functions/index.js.  [Current]
    embeds the first one (conflict-aware selection, assignment on order
    creation, [onRunnerAssignedToOrder]); [Legacy] embeds the second one
    (assignment when an order becomes ready, bulk assignment when a runner
    activates, floored decrement on delivery); [Previous] embeds what the
    remaining copies of the file do differently. *)

From Stdlib Require Import ZArith List Ascii String Bool Lia.
From stdpp Require Import base option gmap strings list fin_maps sorting.

Open Scope string_scope.
Open Scope list_scope.
Open Scope Z_scope.

(** ** JavaScript numbers, as far as the time arithmetic needs them

    The code computes with the results of [Number] applied to the pieces
    of a delivery time.  Those are integers for every "HH:MM" string and
    [NaN] for text that is not a number; arithmetic and comparison follow
    IEEE 754 on these values: [NaN] is absorbing and every comparison with
    it is false. *)

Inductive jsnum : Type :=
| Num (z : Z)
| NaN.

#[global] Instance jsnum_eq_dec : EqDecision jsnum.
Proof. solve_decision. Defined.

Definition js_mul (a b : jsnum) : jsnum :=
  match a, b with Num x, Num y => Num (x * y) | _, _ => NaN end.

Definition js_add (a b : jsnum) : jsnum :=
  match a, b with Num x, Num y => Num (x + y) | _, _ => NaN end.

Definition js_sub (a b : jsnum) : jsnum :=
  match a, b with Num x, Num y => Num (x - y) | _, _ => NaN end.

(** [Math.abs] *)
Definition Math_abs (a : jsnum) : jsnum :=
  match a with Num x => Num (Z.abs x) | NaN => NaN end.

(** [a < b] *)
Definition js_lt (a b : jsnum) : bool :=
  match a, b with Num x, Num y => x <? y | _, _ => false end.

(** ** [String.prototype.split(':')] and [Number] on strings *)

Definition is_colon (c : ascii) : bool := Ascii.eqb c ":"%char.

(** [cur] collects, in reverse, the characters read since the last
    separator.  The result always has at least one piece. *)
Fixpoint split_from (cur : list ascii) (l : list ascii) : list (list ascii) :=
  match l with
  | [] => [rev cur]
  | c :: l' =>
      if is_colon c then rev cur :: split_from [] l'
      else split_from (c :: cur) l'
  end.

Definition split_colon (s : string) : list (list ascii) :=
  split_from [] (list_ascii_of_string s).

(** White space that [Number] strips at both ends (the ASCII part of it). *)
Definition is_space (c : ascii) : bool :=
  let n := nat_of_ascii c in
  ((9 <=? n) && (n <=? 13))%nat || (n =? 32)%nat.

Fixpoint drop_space (l : list ascii) : list ascii :=
  match l with
  | c :: l' => if is_space c then drop_space l' else l
  | [] => []
  end.

Definition trim (l : list ascii) : list ascii :=
  rev (drop_space (rev (drop_space l))).

Definition digit_of (c : ascii) : option Z :=
  let n := nat_of_ascii c in
  if ((48 <=? n) && (n <=? 57))%nat then Some (Z.of_nat n - 48) else None.

Fixpoint digits_value (acc : Z) (l : list ascii) : option Z :=
  match l with
  | [] => Some acc
  | c :: l' =>
      match digit_of c with
      | Some d => digits_value (10 * acc + d) l'
      | None => None
      end
  end.

Definition unsigned_value (l : list ascii) : jsnum :=
  match l with
  | [] => NaN
  | _ => match digits_value 0 l with Some z => Num z | None => NaN end
  end.

(** [Number(s)] for a string: the empty or blank string is 0, an optionally
    signed run of decimal digits is its value, other text is [NaN].
    Literals with a fraction, an exponent, a radix prefix or [Infinity],
    which no time of day is written with, are not numbers of this model and
    read as [NaN] too; the integers are exact, as they are in JavaScript
    below 2^53. *)
Definition Number (l : list ascii) : jsnum :=
  match trim l with
  | [] => Num 0
  | "+"%char :: ds => unsigned_value ds
  | "-"%char :: ds => js_sub (Num 0) (unsigned_value ds)
  | ds => unsigned_value ds
  end.

(** An array element read by destructuring: a missing element is
    [undefined], which arithmetic turns into [NaN]. *)
Definition element (l : list jsnum) (i : nat) : jsnum := nth i l NaN.

(** [const [hours, minutes] = t.split(':').map(Number)] followed by
    [hours * 60 + minutes]. *)
Definition totalMinutes (t : string) : jsnum :=
  let parts := map Number (split_colon t) in
  let hours := element parts 0 in
  let minutes := element parts 1 in
  js_add (js_mul hours (Num 60)) minutes.

(** ** Data model: the documents of the store *)

Inductive OrderStatus : Type :=
| received | ready | picked | delivered | completed | cancelled.

#[global] Instance OrderStatus_eq_dec : EqDecision OrderStatus.
Proof. solve_decision. Defined.

(** Document ids; a document reference is the id of the document it
    points to in its collection. *)
Abbreviation RunnerId := string (only parsing).
Abbreviation OrderId := string (only parsing).

Record Order : Type := mkOrder {
  orderStatus : OrderStatus;
  deliveryTime : string;             (* the text of a time of day *)
  runner : option RunnerId;           (* absent, or a runner reference *)
  waitingForRunner : option bool      (* absent, or the stored flag *)
}.

Record Runner : Type := mkRunner {
  isActive : bool;
  activeOrders : Z;
  completedOrders : Z;
  totalCompletedOrders : Z;
  orders : list OrderId
}.

#[global] Instance Order_eq_dec : EqDecision Order.
Proof. solve_decision. Defined.

#[global] Instance Runner_eq_dec : EqDecision Runner.
Proof. solve_decision. Defined.

Record Store : Type := mkStore {
  orders_col : gmap string Order;
  runners_col : gmap string Runner
}.

(** Change events of the store, with the snapshots they carry. *)
Inductive Event : Type :=
| OrderCreated (orderId : OrderId) (snapshot : Order)
| OrderUpdated (orderId : OrderId) (before after : Order)
| RunnerUpdated (runnerId : RunnerId) (before after : Runner).

(** *** Field updates *)

Definition set_runner (r : option RunnerId) (o : Order) : Order :=
  mkOrder (orderStatus o) (deliveryTime o) r (waitingForRunner o).

Definition set_waitingForRunner (w : option bool) (o : Order) : Order :=
  mkOrder (orderStatus o) (deliveryTime o) (runner o) w.

Definition set_isActive (b : bool) (r : Runner) : Runner :=
  mkRunner b (activeOrders r) (completedOrders r) (totalCompletedOrders r) (orders r).

(** [FieldValue.increment(d)] on each counter *)
Definition increment_activeOrders (d : Z) (r : Runner) : Runner :=
  mkRunner (isActive r) (activeOrders r + d) (completedOrders r)
           (totalCompletedOrders r) (orders r).

Definition increment_completedOrders (d : Z) (r : Runner) : Runner :=
  mkRunner (isActive r) (activeOrders r) (completedOrders r + d)
           (totalCompletedOrders r) (orders r).

Definition increment_totalCompletedOrders (d : Z) (r : Runner) : Runner :=
  mkRunner (isActive r) (activeOrders r) (completedOrders r)
           (totalCompletedOrders r + d) (orders r).

Definition set_completedOrders (v : Z) (r : Runner) : Runner :=
  mkRunner (isActive r) (activeOrders r) v (totalCompletedOrders r) (orders r).

Definition set_totalCompletedOrders (v : Z) (r : Runner) : Runner :=
  mkRunner (isActive r) (activeOrders r) (completedOrders r) v (orders r).

(** [FieldValue.arrayUnion(x)]: appended unless already an element. *)
Definition arrayUnion (x : OrderId) (l : list OrderId) : list OrderId :=
  if decide (x ∈ l) then l else l ++ [x].

Definition union_orders (x : OrderId) (r : Runner) : Runner :=
  mkRunner (isActive r) (activeOrders r) (completedOrders r)
           (totalCompletedOrders r) (arrayUnion x (orders r)).

(** ** Handlers: reads, writes and events

    A handler runs against the store.  It may read it, write to it, and be
    rejected half-way (a write to a missing document throws), in which case
    the writes made so far stay.  Every write that changes a document
    raises an update event carrying the document before and after; the
    events are collected for the dispatcher. *)

Definition Fn (A : Type) : Type := Store → option A * Store * list Event.

#[global] Instance Fn_ret : MRet Fn := λ A a st, (Some a, st, []).

#[global] Instance Fn_bind : MBind Fn := λ A B k m st,
  match m st with
  | (Some a, st1, ev1) =>
      match k a st1 with
      | (b, st2, ev2) => (b, st2, ev1 ++ ev2)
      end
  | (None, st1, ev1) => (None, st1, ev1)
  end.

(** A read of the store. *)
Definition get {A : Type} (f : Store → A) : Fn A := λ st, (Some (f st), st, []).

(** The store a handler leaves and the events its writes raised. *)
Definition run_handler {A : Type} (h : Fn A) (st : Store) : Store * list Event :=
  match h st with
  | (_, st', evs) => (st', evs)
  end.

(** An invocation of a handler: a rejection ends that invocation and no
    other. *)
Definition invocation {A : Type} (h : Fn A) : Fn unit := λ st,
  match h st with
  | (_, st', evs) => (Some tt, st', evs)
  end.

(** [ref.update(fields)] on an order and on a runner document. *)
Definition update_order (orderId : OrderId) (f : Order → Order) : Fn unit := λ st,
  match orders_col st !! orderId with
  | None => (None, st, [])
  | Some o =>
      let o' := f o in
      (Some tt,
       mkStore (<[orderId := o']> (orders_col st)) (runners_col st),
       if decide (o = o') then [] else [OrderUpdated orderId o o'])
  end.

Definition update_runner (runnerId : RunnerId) (f : Runner → Runner) : Fn unit := λ st,
  match runners_col st !! runnerId with
  | None => (None, st, [])
  | Some r =>
      let r' := f r in
      (Some tt,
       mkStore (orders_col st) (<[runnerId := r']> (runners_col st)),
       if decide (r = r') then [] else [RunnerUpdated runnerId r r'])
  end.

(** One [update] per listed document, as a batch does on commit. *)
Fixpoint batch_update {A : Type} (upd : A → Fn unit) (l : list A) : Fn unit :=
  match l with
  | [] => mret tt
  | x :: l' => upd x ;; batch_update upd l'
  end.

(** The documents of a collection as a query returns them: ordered by
    document id. *)
Definition docs {A : Type} (m : gmap string A) : list (string * A) :=
  merge_sort (λ a b, String.le a.1 b.1) (map_to_list m).

(** ** [Array.prototype.sort]

    The engine's sort is a comparison sort; ECMAScript fixes the resulting
    order only for a consistent comparator.  It is modelled as a stable
    insertion sort that decides by the sign of what the comparator returns.
    The comparator may call [Math.random]; [k] counts the calls made so
    far. *)

Section Sort.
Context {A : Type}.
Variable comparefn : A → A → nat → Z * nat.

Fixpoint insert_sorted (x : A) (l : list A) (k : nat) : list A * nat :=
  match l with
  | [] => ([x], k)
  | y :: l' =>
      let (c, k1) := comparefn x y k in
      if c <? 0 then (x :: y :: l', k1)
      else let (r, k2) := insert_sorted x l' k1 in (y :: r, k2)
  end.

Fixpoint sort_into (acc : list A) (l : list A) (k : nat) : list A * nat :=
  match l with
  | [] => (acc, k)
  | x :: l' =>
      let (acc', k1) := insert_sorted x acc k in
      sort_into acc' l' k1
  end.

Definition Array_sort (l : list A) : list A := (sort_into [] l 0%nat).1.
End Sort.

(** [Math.random() - 0.5 < 0] at the k-th call of [Math.random]. *)
Abbreviation Random := (nat → bool) (only parsing).

(** ** The current revision (functions/index.js, first document) *)

Module Current.

(** Orders the conflict query returns for a runner. *)
Definition committed (s : OrderStatus) : bool :=
  match s with
  | received | ready | picked => true
  | _ => false
  end.

Definition assignedOrders (st : Store) (runnerId : RunnerId) : list (OrderId * Order) :=
  List.filter
    (λ doc, bool_decide (runner doc.2 = Some runnerId) && committed (orderStatus doc.2))
    (docs (orders_col st)).

Definition runnerHasConflictingDelivery
    (st : Store) (runnerId : RunnerId) (newDeliveryTime : string) : bool :=
  let assignedOrdersSnapshot := assignedOrders st runnerId in
  existsb
    (λ doc,
       let order := doc.2 in
       let newTotalMinutes := totalMinutes newDeliveryTime in
       let orderTotalMinutes := totalMinutes (deliveryTime order) in
       js_lt (Math_abs (js_sub newTotalMinutes orderTotalMinutes)) (Num 60))
    assignedOrdersSnapshot.

(** The comparator of the fairness sort.  The random case returns a
    number of the sign [Math.random() - 0.5] has. *)
Definition fairness_compare (rnd : Random) (a b : RunnerId * Runner) (k : nat)
  : Z * nat :=
  let runnerA := a.2 in
  let runnerB := b.2 in
  if negb (activeOrders runnerA =? activeOrders runnerB) then
    (activeOrders runnerA - activeOrders runnerB, k)
  else if negb (completedOrders runnerA =? completedOrders runnerB) then
    (completedOrders runnerA - completedOrders runnerB, k)
  else
    (if rnd k then -1 else 1, S k).

Definition findSuitableRunner
    (rnd : Random) (st : Store) (orderDeliveryTime : string)
  : option (RunnerId * Runner) :=
  let runnersSnapshot := List.filter (λ doc, isActive doc.2) (docs (runners_col st)) in
  match runnersSnapshot with
  | [] => None
  | _ =>
      let availableRunners :=
        map (λ doc,
               let hasConflict :=
                 runnerHasConflictingDelivery st doc.1 orderDeliveryTime in
               if hasConflict then None else Some doc)
            runnersSnapshot in
      let filteredRunners := omap id availableRunners in
      match filteredRunners with
      | [] => None
      | _ => head (Array_sort (fairness_compare rnd) filteredRunners)
      end
  end.

(** The admin SMS of the failure branch goes outside the store. *)
Definition assignRunnerOnOrderCreated
    (rnd : Random) (orderId : OrderId) (order : Order) : Fn unit :=
  match runner order with
  | Some _ => mret tt
  | None =>
      found ← get (λ st, findSuitableRunner rnd st (deliveryTime order));
      match found with
      | Some doc =>
          update_order orderId
            (λ o, set_waitingForRunner None (set_runner (Some doc.1) o)) ;;
          update_runner doc.1
            (λ r, union_orders orderId (increment_activeOrders 1 r))
      | None =>
          update_order orderId (set_waitingForRunner (Some true))
      end
  end.

Definition onRunnerAssignedToOrder
    (orderId : OrderId) (before after : Order) : Fn unit :=
  match runner before, runner after with
  | None, Some runnerRef =>
      update_runner runnerRef
        (λ r, union_orders orderId (increment_activeOrders 1 r)) ;;
      update_order orderId (set_waitingForRunner None)
  | _, _ => mret tt
  end.

Definition updateRunnerOnOrderDelivered
    (orderId : OrderId) (before after : Order) : Fn unit :=
  if bool_decide (orderStatus before ≠ delivered)
     && bool_decide (orderStatus after = delivered) then
    match runner after with
    | Some runnerRef =>
        runnerDoc ← get (λ st, runners_col st !! runnerRef);
        match runnerDoc with
        | None => mret tt
        | Some _ =>
            update_runner runnerRef
              (λ r, increment_totalCompletedOrders 1
                      (increment_completedOrders 1
                         (increment_activeOrders (-1) r)))
        end
    | None => mret tt
    end
  else mret tt.

Definition resetDailyCompletedOrders : Fn unit :=
  snapshot ← get (λ st, docs (runners_col st));
  batch_update (λ doc, update_runner doc.1 (set_completedOrders 0)) snapshot.

Definition resetMonthlyCompletedOrders : Fn unit :=
  snapshot ← get (λ st, docs (runners_col st));
  batch_update (λ doc, update_runner doc.1 (set_totalCompletedOrders 0)) snapshot.

(** The handlers subscribed to each kind of event that write to the
    store, run one after the other.  (The notification and SMS handlers
    only read.) *)
Definition handlers (rnd : Random) (e : Event) : Fn unit :=
  match e with
  | OrderCreated orderId snapshot =>
      invocation (assignRunnerOnOrderCreated rnd orderId snapshot)
  | OrderUpdated orderId before after =>
      invocation (onRunnerAssignedToOrder orderId before after) ;;
      invocation (updateRunnerOnOrderDelivered orderId before after)
  | RunnerUpdated _ _ _ => mret tt
  end.

(** Delivery of one event. *)
Definition deliver (rnd : Random) (e : Event) (st : Store) : Store * list Event :=
  run_handler (handlers rnd e) st.

(** Delivery of an event and of the events its handlers raise in turn,
    until none is left. *)
Fixpoint settle (fuel : nat) (rnd : Random) (queue : list Event) (st : Store)
  : option Store :=
  match queue with
  | [] => Some st
  | e :: queue' =>
      match fuel with
      | O => None
      | S fuel' =>
          let (st', raised) := deliver rnd e st in
          settle fuel' rnd (queue' ++ raised) st'
      end
  end.

(** [assignRunnerOnOrderCreated] one [await] at a time, for invocations
    that run concurrently: the selection, the write to the order and the
    increment on the runner are three separate store operations, and
    other invocations may run between them. *)
Inductive Invocation : Type :=
| AwaitSelection (orderId : OrderId) (order : Order)
| AwaitOrderUpdate (orderId : OrderId) (found : option (RunnerId * Runner))
| AwaitRunnerUpdate (orderId : OrderId) (doc : RunnerId * Runner)
| Finished (selected : option (RunnerId * Runner)).

Definition start (orderId : OrderId) (order : Order) : Invocation :=
  match runner order with
  | Some _ => Finished None
  | None => AwaitSelection orderId order
  end.

Definition step (rnd : Random) (i : Invocation) (st : Store) : Invocation * Store :=
  match i with
  | AwaitSelection orderId order =>
      (AwaitOrderUpdate orderId (findSuitableRunner rnd st (deliveryTime order)), st)
  | AwaitOrderUpdate orderId (Some doc) =>
      match update_order orderId
              (λ o, set_waitingForRunner None (set_runner (Some doc.1) o)) st with
      | (Some _, st', _) => (AwaitRunnerUpdate orderId doc, st')
      | (None, st', _) => (Finished (Some doc), st')
      end
  | AwaitOrderUpdate orderId None =>
      (Finished None,
       (run_handler (update_order orderId (set_waitingForRunner (Some true))) st).1)
  | AwaitRunnerUpdate orderId doc =>
      (Finished (Some doc),
       (run_handler
          (update_runner doc.1
             (λ r, union_orders orderId (increment_activeOrders 1 r))) st).1)
  | Finished d => (Finished d, st)
  end.

(** Two invocations under a schedule: [true] lets the first one take its
    next step, [false] the second one. *)
Fixpoint interleave (rnd1 rnd2 : Random) (schedule : list bool)
    (i1 i2 : Invocation) (st : Store) : Invocation * Invocation * Store :=
  match schedule with
  | [] => (i1, i2, st)
  | true :: schedule' =>
      let (i1', st') := step rnd1 i1 st in
      interleave rnd1 rnd2 schedule' i1' i2 st'
  | false :: schedule' =>
      let (i2', st') := step rnd2 i2 st in
      interleave rnd1 rnd2 schedule' i1 i2' st'
  end.

End Current.

(** ** The earlier revision (functions/index.js, second document) *)

Module Legacy.

(** [orderBy('completedOrders').orderBy('activeOrders')], ties in the
    order of the document ids. *)
Definition least_busy_leb (a b : RunnerId * Runner) : bool :=
  (completedOrders a.2 <? completedOrders b.2)
  || ((completedOrders a.2 =? completedOrders b.2)
      && ((activeOrders a.2 <? activeOrders b.2)
          || ((activeOrders a.2 =? activeOrders b.2) && String.leb a.1 b.1))).

Definition findLeastBusyRunner (st : Store) : option (RunnerId * Runner) :=
  let runnersQuerySnapshot :=
    merge_sort (λ a b, Is_true (least_busy_leb a b))
      (List.filter (λ doc, isActive doc.2) (docs (runners_col st))) in
  head runnersQuerySnapshot.

Definition assignRunnerOnOrderReady
    (orderId : OrderId) (before after : Order) : Fn unit :=
  if bool_decide (orderStatus after = ready)
     && bool_decide (orderStatus before ≠ ready)
     && bool_decide (runner after = None) then
    found ← get findLeastBusyRunner;
    match found with
    | Some doc =>
        update_order orderId
          (λ o, set_waitingForRunner None (set_runner (Some doc.1) o))
    | None =>
        update_order orderId (set_waitingForRunner (Some true))
    end
  else mret tt.

(** The [forEach] that fills the batch: a document is added while
    [count < 5]. *)
Fixpoint fill_batch {A : Type} (count : Z) (l : list A) : list A * Z :=
  match l with
  | [] => ([], count)
  | doc :: l' =>
      if count <? 5 then
        let (batch, count') := fill_batch (count + 1) l' in (doc :: batch, count')
      else fill_batch count l'
  end.

Definition assignOrdersWhenRunnerActivates
    (runnerId : RunnerId) (before after : Runner) : Fn unit :=
  if bool_decide (isActive before ≠ isActive after) && isActive after then
    waiting ← get (λ st,
      List.filter (λ doc, bool_decide (waitingForRunner doc.2 = Some true))
                  (docs (orders_col st)));
    match waiting with
    | [] => mret tt
    | _ =>
        let (batch, count) := fill_batch 0 waiting in
        batch_update
          (λ doc, update_order doc.1
                    (λ o, set_waitingForRunner None (set_runner (Some runnerId) o)))
          batch ;;
        update_runner runnerId
          (λ r, set_isActive (if count =? 5 then false else true)
                  (increment_activeOrders count r))
    end
  else mret tt.

Definition updateRunnerOnOrderDelivered
    (orderId : OrderId) (before after : Order) : Fn unit :=
  if bool_decide (orderStatus before ≠ delivered)
     && bool_decide (orderStatus after = delivered) then
    match runner after with
    | Some runnerRef =>
        runnerDoc ← get (λ st, runners_col st !! runnerRef);
        match runnerDoc with
        | None => mret tt
        | Some runnerData =>
            let decrement := if 0 <? activeOrders runnerData then 1 else 0 in
            update_runner runnerRef
              (λ r, set_isActive (activeOrders runnerData - decrement <? 5)
                      (increment_activeOrders (- decrement) r))
        end
    | None => mret tt
    end
  else mret tt.

Definition resetDailyCompletedOrders : Fn unit :=
  snapshot ← get (λ st, docs (runners_col st));
  batch_update (λ doc, update_runner doc.1 (set_completedOrders 0)) snapshot.

Definition resetMonthlyCompletedOrders : Fn unit :=
  snapshot ← get (λ st, docs (runners_col st));
  batch_update (λ doc, update_runner doc.1 (set_totalCompletedOrders 0)) snapshot.

Definition handlers (e : Event) : Fn unit :=
  match e with
  | OrderCreated _ _ => mret tt
  | OrderUpdated orderId before after =>
      invocation (assignRunnerOnOrderReady orderId before after) ;;
      invocation (updateRunnerOnOrderDelivered orderId before after)
  | RunnerUpdated runnerId before after =>
      invocation (assignOrdersWhenRunnerActivates runnerId before after)
  end.

Definition deliver (e : Event) (st : Store) : Store * list Event :=
  run_handler (handlers e) st.

End Legacy.

(** ** The revision without [onRunnerAssignedToOrder]

    The other copies of index.js in the repository select and check
    conflicts as the current revision does, and complete deliveries as it
    does; they assign on creation without looking whether the order has a
    runner, and count the order on the runner there and nowhere else. *)

Module Previous.

Definition assignRunnerOnOrderCreated
    (rnd : Random) (orderId : OrderId) (order : Order) : Fn unit :=
  found ← get (λ st, Current.findSuitableRunner rnd st (deliveryTime order));
  match found with
  | Some doc =>
      update_order orderId
        (λ o, set_waitingForRunner None (set_runner (Some doc.1) o)) ;;
      update_runner doc.1 (increment_activeOrders 1)
  | None =>
      update_order orderId (set_waitingForRunner (Some true))
  end.

Definition handlers (rnd : Random) (e : Event) : Fn unit :=
  match e with
  | OrderCreated orderId snapshot =>
      invocation (assignRunnerOnOrderCreated rnd orderId snapshot)
  | OrderUpdated orderId before after =>
      invocation (Current.updateRunnerOnOrderDelivered orderId before after)
  | RunnerUpdated _ _ _ => mret tt
  end.

Definition deliver (rnd : Random) (e : Event) (st : Store) : Store * list Event :=
  run_handler (handlers rnd e) st.

Fixpoint settle (fuel : nat) (rnd : Random) (queue : list Event) (st : Store)
  : option Store :=
  match queue with
  | [] => Some st
  | e :: queue' =>
      match fuel with
      | O => None
      | S fuel' =>
          let (st', raised) := deliver rnd e st in
          settle fuel' rnd (queue' ++ raised) st'
      end
  end.

End Previous.

(** ** Operations in scope

    What the functions of either revision do to the store: the delivery of
    a change event to the handlers subscribed to it, and the two scheduled
    resets.  An event raised by a handler reaches the handlers as a further
    operation. *)

Inductive Operation : Type :=
| Deliver (rnd : Random) (e : Event)
| DeliverLegacy (e : Event)
| DailyReset
| MonthlyReset.

Definition perform (op : Operation) (st : Store) : Store :=
  match op with
  | Deliver rnd e => (Current.deliver rnd e st).1
  | DeliverLegacy e => (Legacy.deliver e st).1
  | DailyReset => (run_handler Current.resetDailyCompletedOrders st).1
  | MonthlyReset => (run_handler Current.resetMonthlyCompletedOrders st).1
  end.

Definition perform_all (ops : list Operation) (st : Store) : Store :=
  fold_left (λ s op, perform op s) ops st.

(** ** Vocabulary of the properties *)

(** *** Delivery times *)

(** A delivery time expressed in minutes since midnight, when it has such
    an expression. *)
Definition minutesSinceMidnight (t : string) : option Z :=
  match totalMinutes t with
  | Num z => Some z
  | NaN => None
  end.

(** The text "HH:MM" of an hour and a minute. *)
Definition two_digits (n : nat) : string :=
  String (ascii_of_nat (48 + n / 10)) (String (ascii_of_nat (48 + n mod 10)) EmptyString).

Definition hhmm (h m : nat) : string := two_digits h +:+ ":" +:+ two_digits m.

(** *** Relations between the store before and after *)

(** A handler respects a relation on stores when the store it leaves is
    related to the store it started from. *)
Definition respects (R : relation Store) {A : Type} (h : Fn A) : Prop :=
  ∀ st, R st (run_handler h st).1.

(** Stores with the same runner ids whose runners are related one by one,
    and the same for orders. *)
Definition runnerwise (Q : relation Runner) : relation Store := λ st st',
  ∀ runnerId, option_Forall2 Q (runners_col st !! runnerId) (runners_col st' !! runnerId).

Definition orderwise (Q : relation Order) : relation Store := λ st st',
  ∀ orderId, option_Forall2 Q (orders_col st !! orderId) (orders_col st' !! orderId).

(** [keeps P] relates a document to those that have [P] if it has. *)
Definition keeps {A : Type} (P : A → Prop) : relation A := λ x y, P x → P y.

(** The updates the handlers apply to runner documents, the monthly reset
    apart. *)
Inductive runner_update : (Runner → Runner) → Prop :=
| ru_assigned orderId :
    runner_update (λ r, union_orders orderId (increment_activeOrders 1 r))
| ru_delivered :
    runner_update (λ r, increment_totalCompletedOrders 1
                          (increment_completedOrders 1 (increment_activeOrders (-1) r)))
| ru_daily : runner_update (set_completedOrders 0)
| ru_activated b count :
    runner_update (λ r, set_isActive b (increment_activeOrders count r)).

Definition is_monthly_reset (op : Operation) : bool :=
  match op with MonthlyReset => true | _ => false end.

(** *** Counters *)

(** The counters of completed orders of one runner, and of every runner
    of a store. *)
Definition counters_ordered (r : Runner) : Prop :=
  0 ≤ completedOrders r ≤ totalCompletedOrders r.

Definition counters_in_order (st : Store) : Prop :=
  ∀ runnerId r, runners_col st !! runnerId = Some r → counters_ordered r.

Definition completed_le_total (st : Store) : Prop :=
  ∀ runnerId r, runners_col st !! runnerId = Some r →
    completedOrders r ≤ totalCompletedOrders r.

(** The runner's [orders] array only grows at its end. *)
Definition orders_grow : relation Runner := λ r r', orders r `prefix_of` orders r'.

(** The order and the runner document after an assignment, and the runner
    document after a delivery in the current revision. *)
Definition assigned_order (runnerId : RunnerId) (o : Order) : Order :=
  set_waitingForRunner None (set_runner (Some runnerId) o).

Definition assigned_runner (orderId : OrderId) (r : Runner) : Runner :=
  union_orders orderId (increment_activeOrders 1 r).

Definition delivered_runner (r : Runner) : Runner :=
  increment_totalCompletedOrders 1
    (increment_completedOrders 1 (increment_activeOrders (-1) r)).

(** What an update event shows: a runner that was absent before, a status
    that became delivered. *)
Definition shows_assignment (before after : Order) : bool :=
  bool_decide (runner before = None) && bool_decide (is_Some (runner after)).

Definition shows_delivery (before after : Order) : bool :=
  bool_decide (orderStatus before ≠ delivered)
  && bool_decide (orderStatus after = delivered)
  && bool_decide (is_Some (runner after)).

(** What the handlers of an update event do to the order and to the
    runner the event names. *)
Definition order_effect (before after : Order) : Order → Order :=
  if shows_assignment before after then set_waitingForRunner None else id.

Definition runner_effect (orderId : OrderId) (before after : Order) : Runner → Runner :=
  (if shows_delivery before after then delivered_runner else id)
  ∘ (if shows_assignment before after then assigned_runner orderId else id).

(** [r2] is to [r1] what [r1] is to [r0] on the counters, with the fields
    that are no counters as in [r1]. *)
Definition same_shift (r0 r1 r2 : Runner) : Prop :=
  activeOrders r2 - activeOrders r1 = activeOrders r1 - activeOrders r0
  ∧ completedOrders r2 - completedOrders r1 = completedOrders r1 - completedOrders r0
  ∧ totalCompletedOrders r2 - totalCompletedOrders r1
    = totalCompletedOrders r1 - totalCompletedOrders r0
  ∧ orders r2 = orders r1
  ∧ isActive r2 = isActive r1.

(** *** Selection *)

(** The fairness order: ascending [activeOrders], then ascending
    [completedOrders]. *)
Definition fairness_le (a b : RunnerId * Runner) : Prop :=
  activeOrders a.2 < activeOrders b.2
  ∨ (activeOrders a.2 = activeOrders b.2 ∧ completedOrders a.2 ≤ completedOrders b.2).

(** A runner the selector may return for a delivery time: active and free
    of conflict; and one the fairness order puts first among those. *)
Definition eligible (st : Store) (t : string) (doc : RunnerId * Runner) : Prop :=
  runners_col st !! doc.1 = Some doc.2
  ∧ isActive doc.2 = true
  ∧ Current.runnerHasConflictingDelivery st doc.1 t = false.

Definition least_loaded (st : Store) (t : string) (doc : RunnerId * Runner) : Prop :=
  eligible st t doc ∧ ∀ doc', eligible st t doc' → fairness_le doc doc'.

(** Fair coins for [Math.random() - 0.5 < 0]: the outcomes of the first
    [n] calls, each list as likely as any other. *)
Definition random_of (flips : list bool) : nat → bool := λ k, nth k flips false.

Fixpoint all_flips (n : nat) : list (list bool) :=
  match n with
  | O => [[]]
  | S n' => map (cons true) (all_flips n') ++ map (cons false) (all_flips n')
  end.

Definition chosen (rnd : nat → bool) (st : Store) (t : string) : option RunnerId :=
  fst <$> Current.findSuitableRunner rnd st t.

(** In how many of the [2 ^ n] equally likely outcomes a runner is the
    one selected, and the choice among the runners put first being
    uniform. *)
Definition times_chosen (n : nat) (st : Store) (t : string) (runnerId : RunnerId) : nat :=
  length (List.filter
            (λ flips, bool_decide (chosen (random_of flips) st t = Some runnerId))
            (all_flips n)).

Definition uniform_tie_break (n : nat) (st : Store) (t : string) : Prop :=
  ∀ doc doc', least_loaded st t doc → least_loaded st t doc' →
    times_chosen n st t doc.1 = times_chosen n st t doc'.1.

(** *** The runner of an order *)

(** An order keeps the runner it has. *)
Definition keeps_runner : relation Order := λ o o',
  ∀ r, runner o = Some r → runner o' = Some r.

(** No order that has a runner is marked as waiting for one. *)
Definition unmarked_order (o : Order) : Prop :=
  is_Some (runner o) → waitingForRunner o ≠ Some true.

Definition unmarked (st : Store) : Prop :=
  ∀ orderId o, orders_col st !! orderId = Some o → unmarked_order o.

Definition assignment_kept : relation Store := λ st st',
  unmarked st → unmarked st' ∧ orderwise keeps_runner st st'.




(** ** Stores and events of the examples *)

(** A choice of random outcomes. *)
Definition heads : nat → bool := λ _, true.

Definition idle_runner : Runner := mkRunner true 0 0 0 [].
Definition busy_runner : Runner := mkRunner true 1 0 0 ["o1"].
Definition second_runner : Runner := mkRunner true 0 1 1 [].
Definition new_order : Order := mkOrder received "18:00" None None.

(** Scenario A: one order without a runner, one idle active runner. *)
Definition store_scenario_A : Store :=
  mkStore {[ "o1" := new_order ]} {[ "r1" := idle_runner ]}.

(** Scenario C: a runner with one commitment at 12:00. *)
Definition store_scenario_C : Store :=
  mkStore {[ "o1" := mkOrder ready "12:00" (Some "r1") None ]}
          {[ "r1" := busy_runner ]}.


Definition store_three_tied : Store :=
  mkStore ∅ (<["a" := idle_runner]> (<["b" := idle_runner]> (<["c" := idle_runner]> ∅))).

(** A runner with one order under way, and the event of its delivery. *)
Definition order_picked : Order := mkOrder picked "18:00" (Some "r1") None.
Definition order_delivered : Order := mkOrder delivered "18:00" (Some "r1") None.
Definition store_one_delivery : Store :=
  mkStore {[ "o1" := order_delivered ]} {[ "r1" := busy_runner ]}.
Definition delivered_event : Event := OrderUpdated "o1" order_picked order_delivered.

(** The same delivery for a runner whose [activeOrders] is 0: the order
    was created with its runner already set, so no handler counted it. *)
Definition store_uncounted : Store :=
  mkStore {[ "o1" := order_delivered ]} {[ "r1" := idle_runner ]}.

(** An assignment made from outside: the order shows a runner it did not
    have. *)
Definition order_unassigned : Order := mkOrder received "18:00" None (Some true).
Definition order_assigned : Order := mkOrder received "18:00" (Some "r1") (Some true).
Definition assignment_event : Event := OrderUpdated "o1" order_unassigned order_assigned.
Definition store_assigned : Store :=
  mkStore {[ "o1" := order_assigned ]} {[ "r1" := idle_runner ]}.

(** A runner with a commitment at 18:00, and a new order whose delivery
    time is no time. *)
Definition order_committed : Order := mkOrder received "18:00" (Some "r1") None.

(** Two orders for 18:00 created together, and two active runners; both
    invocations selecting before either writes, and one invocation after
    the other. *)
Definition store_race : Store :=
  mkStore (<["o1" := new_order]> {[ "o2" := new_order ]})
          (<["r1" := idle_runner]> {[ "r2" := second_runner ]}).
Definition racing_schedule : list bool := [true; false; true; true; false; false].
Definition serial_schedule : list bool := [true; true; true; false; false; false].




(** ** Vocabulary of further properties *)

(** *** The least busy runner of the earlier revision *)

(** The order of the sorted query: ascending [completedOrders], then
    ascending [activeOrders], then the document id. *)
Definition least_busy_le (a b : RunnerId * Runner) : Prop :=
  completedOrders a.2 < completedOrders b.2
  ∨ (completedOrders a.2 = completedOrders b.2
     ∧ (activeOrders a.2 < activeOrders b.2
        ∨ (activeOrders a.2 = activeOrders b.2 ∧ String.le a.1 b.1))).

(** A runner document of the store that is active. *)
Definition active_doc (st : Store) (doc : RunnerId * Runner) : Prop :=
  runners_col st !! doc.1 = Some doc.2 ∧ isActive doc.2 = true.

(** *** The bulk path and the counter of the earlier revision *)

(** The orders the bulk path finds waiting, in the order of the query. *)
Definition waiting_orders (st : Store) : list (OrderId * Order) :=
  List.filter (λ doc, bool_decide (waitingForRunner doc.2 = Some true))
              (docs (orders_col st)).



(** *** Stores of the examples of the earlier revision *)

(** Six orders waiting for a runner, and a runner that was switched off
    and is active now. *)
Definition order_waiting : Order := mkOrder ready "18:00" None (Some true).
Definition runner_offline : Runner := mkRunner false 0 0 0 [].
Definition store_six_waiting : Store :=
  mkStore (list_to_map ((λ k, (k, order_waiting)) <$> ["o1"; "o2"; "o3"; "o4"; "o5"; "o6"]))
          {[ "r1" := idle_runner ]}.

(** A runner that switched off with one order left to deliver, that
    order, and two orders waiting. *)
Definition runner_leaving : Runner := mkRunner false 1 0 0 [].
Definition store_leaving : Store :=
  mkStore (<["o1" := order_delivered]>
             (<["o2" := order_waiting]> {[ "o3" := order_waiting ]}))
          {[ "r1" := runner_leaving ]}.

(** *** The cascade of events in the current revision *)

(** How far an event is from events no handler acts on: no handler writes
    on a runner event, nor on an order update that shows the runner and
    the status unchanged. *)
Definition level (e : Event) : nat :=
  match e with
  | RunnerUpdated _ _ _ => 0
  | OrderUpdated _ before after =>
      if bool_decide (runner before = runner after)
         && bool_decide (orderStatus before = orderStatus after)
      then 0 else 1
  | OrderCreated _ _ => 2
  end.

(** A bound on the deliveries an event stands for: its own and those of
    the events its handlers raise in turn. *)
Definition weight (e : Event) : nat :=
  match level e with
  | 0 => 1
  | 1 => 4
  | _ => 6
  end%nat.

Definition queue_weight (queue : list Event) : nat := sum_list (weight <$> queue).

(** An order nobody can take at 18:00: the only active runner is
    committed within the hour. *)
Definition store_scenario_B : Store :=
  mkStore (<["o1" := order_committed]> {[ "o2" := new_order ]})
          (<["r1" := busy_runner]> {[ "r2" := runner_offline ]}).

(** *** The revision without [onRunnerAssignedToOrder] *)

(** An order document with another status. *)
Definition with_status (s : OrderStatus) (o : Order) : Order :=
  mkOrder s (deliveryTime o) (runner o) (waitingForRunner o).

(** * Restaurants: [updateIsActive] (functions/index.js, earlier
    revision, and unnamed/part_000) and [cleanUpManualOverrides]
    (unnamed/part_000)

    A restaurant document carries [isActive], the opening hours of each
    day under [availability.general], keyed by the lower-case English name
    of the day, and [manualOverride] where the restaurant was switched by
    hand.  Documents are taken to have [isActive] and
    [availability.general]; a day may lack its hours, and an override its
    date. *)

Module Restaurants.

Inductive Weekday : Type :=
| sunday | monday | tuesday | wednesday | thursday | friday | saturday.

(** [now.format('dddd').toLowerCase()] *)
Definition dayOfWeek (d : Weekday) : string :=
  match d with
  | sunday => "sunday"
  | monday => "monday"
  | tuesday => "tuesday"
  | wednesday => "wednesday"
  | thursday => "thursday"
  | friday => "friday"
  | saturday => "saturday"
  end.

(** What the functions read of [moment.tz('Asia/Kolkata')]: the day of
    the week, [hours()], [minutes()], and the time value of
    [startOf('day').toDate()] in milliseconds. *)
Record Moment : Type := mkMoment {
  weekday : Weekday;
  hours : Z;
  minutes : Z;
  startOfDay : Z
}.

(** The hours of one day; [from] and [until] are [None] where the field
    holds no string. *)
Record DayHours : Type := mkDayHours {
  isOpen : bool;
  from : option string;
  until : option string
}.

#[global] Instance DayHours_eq_dec : EqDecision DayHours.
Proof. solve_decision. Defined.

(** [manualOverride] is [None] where the field is absent, [Some None]
    where it has no timestamp under [date], and [Some (Some ms)] where
    [date.toDate()] has the time value [ms]. *)
Record Restaurant : Type := mkRestaurant {
  isActive : bool;
  general : gmap string DayHours;
  manualOverride : option (option Z)
}.

#[global] Instance Restaurant_eq_dec : EqDecision Restaurant.
Proof. solve_decision. Defined.

Abbreviation Restaurants := (gmap string Restaurant) (only parsing).

Inductive Event : Type :=
| RestaurantUpdated (restaurantId : string) (before after : Restaurant).

Definition set_isActive (b : bool) (r : Restaurant) : Restaurant :=
  mkRestaurant b (general r) (manualOverride r).

Definition delete_manualOverride (r : Restaurant) : Restaurant :=
  mkRestaurant (isActive r) (general r) None.

(** [a >= b] and [a <= b] *)
Definition js_ge (a b : jsnum) : bool :=
  match a, b with Num x, Num y => y <=? x | _, _ => false end.

Definition js_le (a b : jsnum) : bool :=
  match a, b with Num x, Num y => x <=? y | _, _ => false end.

Definition timeStringToMinutes (timeString : string) : jsnum := totalMinutes timeString.

(** [None] where [split] is called on what is no string: the call throws. *)
Definition isTimeInRange (now : Moment) (from until : option string) : option bool :=
  let nowTime := Num (hours now * 60 + minutes now) in
  match from with
  | None => None
  | Some from =>
      let fromTime := timeStringToMinutes from in
      match until with
      | None => None
      | Some until =>
          let untilTime := timeStringToMinutes until in
          Some (js_ge nowTime fromTime && js_le nowTime untilTime)
      end
  end.

(** The value [updateIsActive] writes to [isActive] for the document the
    event shows, [None] where it throws before it writes. *)
Definition newIsActive (now : Moment) (after : Restaurant) : option bool :=
  let newAvailability := general after in
  match newAvailability !! dayOfWeek (weekday now) with
  | None => Some false
  | Some currentDay =>
      if negb (isOpen currentDay) then Some false
      else
        match isTimeInRange now (from currentDay) (until currentDay) with
        | None => None
        | Some true => Some true
        | Some false => Some false
        end
  end.

(** [ref.update(fields)] on a restaurant document: rejected when the
    document does not exist; an update event is raised when the document
    changed. *)
Definition update (restaurantId : string) (f : Restaurant → Restaurant)
    (rs : Restaurants) : Restaurants * list Event :=
  match rs !! restaurantId with
  | None => (rs, [])
  | Some r =>
      let r' := f r in
      (<[restaurantId := r']> rs,
       if decide (r = r') then [] else [RestaurantUpdated restaurantId r r'])
  end.

Definition updateIsActive (now : Moment) (restaurantId : string) (after : Restaurant)
    (rs : Restaurants) : Restaurants * list Event :=
  match newIsActive now after with
  | None => (rs, [])
  | Some value => update restaurantId (set_isActive value) rs
  end.

(** The [forEach] of [cleanUpManualOverrides]: the documents whose
    override the batch is to delete, [None] where it throws. *)
Fixpoint overridesToDelete (todayDate : Z) (snapshot : list (string * Restaurant))
  : option (list string) :=
  match snapshot with
  | [] => Some []
  | doc :: snapshot' =>
      match manualOverride doc.2 with
      | None => overridesToDelete todayDate snapshot'
      | Some None => None
      | Some (Some manualOverrideDate) =>
          batch ← overridesToDelete todayDate snapshot';
          Some (if manualOverrideDate <? todayDate then doc.1 :: batch else batch)
      end
  end.

(** [batch.commit()]: all the updates or, when a document is missing,
    none. *)
Fixpoint apply_updates (batch : list string) (rs : Restaurants)
  : Restaurants * list Event :=
  match batch with
  | [] => (rs, [])
  | restaurantId :: batch' =>
      let (rs1, evs1) := update restaurantId delete_manualOverride rs in
      let (rs2, evs2) := apply_updates batch' rs1 in
      (rs2, evs1 ++ evs2)
  end.

Definition commit (batch : list string) (rs : Restaurants) : Restaurants * list Event :=
  if forallb (λ restaurantId, bool_decide (is_Some (rs !! restaurantId))) batch
  then apply_updates batch rs
  else (rs, []).

(** The error of the loop is caught and logged; the batch is then not
    committed. *)
Definition cleanUpManualOverrides (now : Moment) (rs : Restaurants)
  : Restaurants * list Event :=
  let todayDate := startOfDay now in
  match overridesToDelete todayDate (docs rs) with
  | None => (rs, [])
  | Some batch => commit batch rs
  end.

(** Delivery of an update event to [updateIsActive], and of the events it
    raises in turn, at one reading [now] of the clock. *)
Definition deliver (now : Moment) (e : Event) (rs : Restaurants)
  : Restaurants * list Event :=
  match e with
  | RestaurantUpdated restaurantId _ after => updateIsActive now restaurantId after rs
  end.

Fixpoint settle (fuel : nat) (now : Moment) (queue : list Event) (rs : Restaurants)
  : option Restaurants :=
  match queue with
  | [] => Some rs
  | e :: queue' =>
      match fuel with
      | O => None
      | S fuel' =>
          let (rs', raised) := deliver now e rs in
          settle fuel' now (queue' ++ raised) rs'
      end
  end.

End Restaurants.

(** ** Vocabulary of the restaurants *)



(** An override whose date lies before the start of today. *)
Definition expired (todayDate : Z) (r : Restaurants.Restaurant) : bool :=
  match Restaurants.manualOverride r with
  | Some (Some manualOverrideDate) => manualOverrideDate <? todayDate
  | _ => false
  end.

Definition undated (r : Restaurants.Restaurant) : Prop :=
  Restaurants.manualOverride r = Some None.

(** A restaurant open from 09:00 to 22:00 on Sundays and switched on by
    hand on an earlier day, at 03:00 on a Sunday. *)
Definition sunday_hours : Restaurants.DayHours :=
  Restaurants.mkDayHours true (Some "09:00") (Some "22:00").
Definition restaurant_overridden : Restaurants.Restaurant :=
  Restaurants.mkRestaurant true {[ "sunday" := sunday_hours ]} (Some (Some 1000)).
Definition sunday_3am : Restaurants.Moment :=
  Restaurants.mkMoment Restaurants.sunday 3 0 2000.
Definition sunday_noon : Restaurants.Moment :=
  Restaurants.mkMoment Restaurants.sunday 12 0 2000.

(** A restaurant whose override has no date. *)
Definition restaurant_undated : Restaurants.Restaurant :=
  Restaurants.mkRestaurant false {[ "sunday" := sunday_hours ]} (Some None).

(** * Properties *)

(** ** Queries *)

Lemma elem_of_docs {A : Type} (m : gmap string A) (k : string) (v : A) :
  (k, v) ∈ docs m ↔ m !! k = Some v.
Proof.
  unfold docs. rewrite merge_sort_Permutation. apply elem_of_map_to_list.
Qed.

Lemma In_docs {A : Type} (m : gmap string A) (doc : string * A) :
  In doc (docs m) ↔ m !! doc.1 = Some doc.2.
Proof.
  destruct doc as [k v]. rewrite <- list_elem_of_In. apply elem_of_docs.
Qed.

Lemma In_assignedOrders st runnerId doc :
  In doc (Current.assignedOrders st runnerId) ↔
  orders_col st !! doc.1 = Some doc.2
  ∧ runner doc.2 = Some runnerId
  ∧ Current.committed (orderStatus doc.2) = true.
Proof.
  unfold Current.assignedOrders. rewrite filter_In, In_docs, andb_true_iff.
  rewrite bool_decide_eq_true. tauto.
Qed.

(** ** The conflict window *)

Lemma within_hour_iff (x y : jsnum) :
  js_lt (Math_abs (js_sub x y)) (Num 60) = true ↔
  ∃ a b, x = Num a ∧ y = Num b ∧ Z.abs (a - b) < 60.
Proof.
  destruct x as [a|], y as [b|]; simpl; split;
    try (intros [a' [b' (? & ? & ?)]]; try discriminate);
    try discriminate.
  - intros H. exists a, b. apply Z.ltb_lt in H. auto.
  - apply Z.ltb_lt. congruence.
Qed.

Lemma minutesSinceMidnight_Some t z :
  minutesSinceMidnight t = Some z ↔ totalMinutes t = Num z.
Proof.
  unfold minutesSinceMidnight. destruct (totalMinutes t); split; congruence.
Qed.


Lemma conflict_spec st runnerId newDeliveryTime :
  Current.runnerHasConflictingDelivery st runnerId newDeliveryTime = true ↔
  ∃ doc a b,
    In doc (Current.assignedOrders st runnerId)
    ∧ totalMinutes (deliveryTime doc.2) = Num a
    ∧ totalMinutes newDeliveryTime = Num b
    ∧ Z.abs (b - a) < 60.
Proof.
  unfold Current.runnerHasConflictingDelivery. rewrite existsb_exists. split.
  - intros [doc [Hin Hlt]]. simpl in Hlt.
    apply within_hour_iff in Hlt. destruct Hlt as (b & a & Hb & Ha & Hab).
    exists doc, a, b. auto.
  - intros (doc & a & b & Hin & Ha & Hb & Hab).
    exists doc. split; [done|]. simpl. apply within_hour_iff. exists b, a. auto.
Qed.

Example totalMinutes_examples :
  totalMinutes "18:30" = Num 1110
  ∧ totalMinutes "9:05" = Num 545
  ∧ totalMinutes "soon" = NaN
  ∧ totalMinutes "18" = NaN
  ∧ totalMinutes EmptyString = NaN.
Proof. repeat split; reflexivity. Qed.

(** Scenario C: against a commitment at 12:00, a candidate at 12:30 or at
    12:59 conflicts, one at 13:00 or at 11:00 does not, and neither does
    any once the order is delivered. *)
Example scenario_C :
  Current.runnerHasConflictingDelivery store_scenario_C "r1" "12:30" = true
  ∧ Current.runnerHasConflictingDelivery store_scenario_C "r1" "12:59" = true
  ∧ Current.runnerHasConflictingDelivery store_scenario_C "r1" "13:00" = false
  ∧ Current.runnerHasConflictingDelivery store_scenario_C "r1" "11:00" = false
  ∧ Current.runnerHasConflictingDelivery store_one_delivery "r1" "18:00" = false.
Proof. repeat split; vm_compute; reflexivity. Qed.

(** What [hhmm] writes is read back as the minute of the day. *)
Lemma minutesSinceMidnight_hhmm (h m : nat) :
  (h < 24)%nat → (m < 60)%nat →
  minutesSinceMidnight (hhmm h m) = Some (60 * Z.of_nat h + Z.of_nat m).
Proof.
  intros Hh Hm.
  assert (Hall : forallb (λ h', forallb (λ m',
            bool_decide (minutesSinceMidnight (hhmm h' m')
                         = Some (60 * Z.of_nat h' + Z.of_nat m')))
            (seq 0 60)) (seq 0 24) = true) by (vm_compute; reflexivity).
  rewrite forallb_forall in Hall.
  assert (Hrow := Hall h ltac:(apply in_seq; lia)).
  rewrite forallb_forall in Hrow.
  assert (Hcell := Hrow m ltac:(apply in_seq; lia)).
  by apply bool_decide_eq_true in Hcell.
Qed.

(** Commitments an hour or more away do not conflict. *)
Lemma no_conflict_an_hour_apart st runnerId t b :
  minutesSinceMidnight t = Some b →
  (∀ orderId order a,
     orders_col st !! orderId = Some order → runner order = Some runnerId →
     minutesSinceMidnight (deliveryTime order) = Some a → 60 ≤ Z.abs (b - a)) →
  Current.runnerHasConflictingDelivery st runnerId t = false.
Proof.
  intros Hb Hfar. apply not_true_is_false. rewrite conflict_spec.
  intros ([orderId order] & a & b' & Hin & Ha & Hb' & Hlt).
  apply In_assignedOrders in Hin as (Hlook & Hrun & _). simpl in *.
  apply minutesSinceMidnight_Some in Hb. assert (b' = b) by congruence. subst b'.
  apply minutesSinceMidnight_Some in Ha.
  specialize (Hfar orderId order a Hlook Hrun Ha). lia.
Qed.

(** Orders that are delivered, completed or cancelled do not block. *)
Lemma closed_orders_do_not_block st runnerId t :
  (∀ orderId order,
     orders_col st !! orderId = Some order → runner order = Some runnerId →
     orderStatus order = delivered ∨ orderStatus order = completed
     ∨ orderStatus order = cancelled) →
  Current.runnerHasConflictingDelivery st runnerId t = false.
Proof.
  intros Hclosed. apply not_true_is_false. rewrite conflict_spec.
  intros ([orderId order] & a & b & Hin & _).
  apply In_assignedOrders in Hin as (Hlook & Hrun & Hst). simpl in *.
  specialize (Hclosed orderId order Hlook Hrun).
  destruct Hclosed as [H | [H | H]]; rewrite H in Hst; discriminate.
Qed.



(** ** Reasoning about handlers *)

Lemma update_order_store orderId f st :
  (run_handler (update_order orderId f) st).1
  = mkStore (alter f orderId (orders_col st)) (runners_col st).
Proof.
  unfold run_handler, update_order. destruct st as [os rs]; simpl.
  destruct (os !! orderId) as [o|] eqn:Hlook; simpl; f_equal.
  - apply map_eq. intros k. rewrite lookup_alter, lookup_insert.
    case_decide; subst; by rewrite ?Hlook.
  - apply map_eq. intros k. rewrite lookup_alter.
    case_decide; subst; by rewrite ?Hlook.
Qed.

Lemma update_runner_store runnerId f st :
  (run_handler (update_runner runnerId f) st).1
  = mkStore (orders_col st) (alter f runnerId (runners_col st)).
Proof.
  unfold run_handler, update_runner. destruct st as [os rs]; simpl.
  destruct (rs !! runnerId) as [r|] eqn:Hlook; simpl; f_equal.
  - apply map_eq. intros k. rewrite lookup_alter, lookup_insert.
    case_decide; subst; by rewrite ?Hlook.
  - apply map_eq. intros k. rewrite lookup_alter.
    case_decide; subst; by rewrite ?Hlook.
Qed.

Lemma run_handler_bind {A B : Type} (m : Fn A) (k : A → Fn B) st :
  (run_handler (m ≫= k) st).1
  = match (m st).1.1 with
    | Some a => (run_handler (k a) (run_handler m st).1).1
    | None => (run_handler m st).1
    end.
Proof.
  unfold run_handler, mbind, Fn_bind.
  destruct (m st) as [[[a|] st1] ev1]; simpl; [|done].
  by destruct (k a st1) as [[b st2] ev2].
Qed.

Lemma run_handler_ret {A : Type} (a : A) st : (run_handler (mret a) st).1 = st.
Proof. done. Qed.

Lemma run_handler_get {A : Type} (f : Store → A) st : (run_handler (get f) st).1 = st.
Proof. done. Qed.

Lemma run_handler_invocation {A : Type} (h : Fn A) st :
  (run_handler (invocation h) st).1 = (run_handler h st).1.
Proof. unfold run_handler, invocation. by destruct (h st) as [[? ?] ?]. Qed.

Lemma invocation_completes {A : Type} (h : Fn A) st : ((invocation h) st).1.1 = Some tt.
Proof. unfold invocation. by destruct (h st) as [[? ?] ?]. Qed.

Lemma get_completes {A : Type} (f : Store → A) st : ((get f) st).1.1 = Some (f st).
Proof. done. Qed.

Section Respects.
Context (R : relation Store) `{!PreOrder R}.

Lemma respects_ret {A : Type} (a : A) : respects R (mret a : Fn A).
Proof. intros st. rewrite run_handler_ret. reflexivity. Qed.

Lemma respects_get {A : Type} (f : Store → A) : respects R (get f).
Proof. intros st. rewrite run_handler_get. reflexivity. Qed.

Lemma related_bind {A B : Type} (m : Fn A) (k : A → Fn B) st :
  R st (run_handler m st).1 → (∀ a, respects R (k a)) →
  R st (run_handler (m ≫= k) st).1.
Proof.
  intros Hm Hk. rewrite run_handler_bind.
  destruct ((m st).1.1) as [a|]; [|apply Hm].
  transitivity (run_handler m st).1; [apply Hm | apply Hk].
Qed.

Lemma respects_bind {A B : Type} (m : Fn A) (k : A → Fn B) :
  respects R m → (∀ a, respects R (k a)) → respects R (m ≫= k).
Proof. intros Hm Hk st. by apply related_bind. Qed.

Lemma respects_invocation {A : Type} (h : Fn A) :
  respects R h → respects R (invocation h).
Proof. intros Hh st. rewrite run_handler_invocation. apply Hh. Qed.

Lemma respects_batch_update {A : Type} (upd : A → Fn unit) (l : list A) :
  (∀ x, respects R (upd x)) → respects R (batch_update upd l).
Proof.
  intros Hupd. induction l as [|x l IH]; simpl.
  - apply respects_ret.
  - apply respects_bind; [apply Hupd | intros _; apply IH].
Qed.
End Respects.

#[global] Instance runnerwise_preorder (Q : relation Runner) `{!PreOrder Q} :
  PreOrder (runnerwise Q).
Proof.
  split.
  - intros st runnerId. reflexivity.
  - intros st1 st2 st3 H12 H23 runnerId. by transitivity (runners_col st2 !! runnerId).
Qed.

#[global] Instance orderwise_preorder (Q : relation Order) `{!PreOrder Q} :
  PreOrder (orderwise Q).
Proof.
  split.
  - intros st orderId. reflexivity.
  - intros st1 st2 st3 H12 H23 orderId. by transitivity (orders_col st2 !! orderId).
Qed.

Lemma runnerwise_update_order (Q : relation Runner) `{!Reflexive Q} orderId f :
  respects (runnerwise Q) (update_order orderId f).
Proof. intros st runnerId. rewrite update_order_store. simpl. reflexivity. Qed.

Lemma runnerwise_update_runner (Q : relation Runner) `{!Reflexive Q} runnerId f :
  (∀ r, Q r (f r)) → respects (runnerwise Q) (update_runner runnerId f).
Proof.
  intros Hf st k. rewrite update_runner_store. simpl. rewrite lookup_alter.
  case_decide; [subst|reflexivity].
  destruct (runners_col st !! k); simpl; constructor. apply Hf.
Qed.

(** ** What every handler does to the runners

    [Q] relates a runner document to what a handler may turn it into; it
    holds along every update the handlers apply. *)

Section RunnerFrame.
Context (Q : relation Runner) `{!PreOrder Q}.
Hypothesis Q_update : ∀ f, runner_update f → ∀ r, Q r (f r).

Ltac frame :=
  repeat first
    [ apply respects_ret; solve [typeclasses eauto]
    | apply respects_get; solve [typeclasses eauto]
    | apply respects_invocation
    | apply runnerwise_update_order; solve [typeclasses eauto]
    | apply runnerwise_update_runner;
        [ solve [typeclasses eauto] | apply Q_update; constructor ]
    | apply respects_batch_update; [solve [typeclasses eauto] | intros ?]
    | apply respects_bind; [solve [typeclasses eauto] | | intros ?]
    | case_match ].

Lemma frame_assignRunnerOnOrderCreated rnd orderId order :
  respects (runnerwise Q) (Current.assignRunnerOnOrderCreated rnd orderId order).
Proof. unfold Current.assignRunnerOnOrderCreated. frame. Qed.

Lemma frame_onRunnerAssignedToOrder orderId before after :
  respects (runnerwise Q) (Current.onRunnerAssignedToOrder orderId before after).
Proof. unfold Current.onRunnerAssignedToOrder. frame. Qed.

Lemma frame_updateRunnerOnOrderDelivered orderId before after :
  respects (runnerwise Q) (Current.updateRunnerOnOrderDelivered orderId before after).
Proof. unfold Current.updateRunnerOnOrderDelivered. frame. Qed.

Lemma frame_resetDailyCompletedOrders :
  respects (runnerwise Q) Current.resetDailyCompletedOrders.
Proof. unfold Current.resetDailyCompletedOrders. frame. Qed.

Lemma frame_assignRunnerOnOrderReady orderId before after :
  respects (runnerwise Q) (Legacy.assignRunnerOnOrderReady orderId before after).
Proof. unfold Legacy.assignRunnerOnOrderReady. frame. Qed.

Lemma frame_assignOrdersWhenRunnerActivates runnerId before after :
  respects (runnerwise Q) (Legacy.assignOrdersWhenRunnerActivates runnerId before after).
Proof. unfold Legacy.assignOrdersWhenRunnerActivates. frame. Qed.

Lemma frame_legacy_updateRunnerOnOrderDelivered orderId before after :
  respects (runnerwise Q) (Legacy.updateRunnerOnOrderDelivered orderId before after).
Proof.
  unfold Legacy.updateRunnerOnOrderDelivered. frame.
Qed.

Lemma frame_handlers rnd e : respects (runnerwise Q) (Current.handlers rnd e).
Proof.
  destruct e; simpl.
  - apply respects_invocation, frame_assignRunnerOnOrderCreated.
  - apply respects_bind; [typeclasses eauto | |intros _];
      apply respects_invocation;
      [apply frame_onRunnerAssignedToOrder | apply frame_updateRunnerOnOrderDelivered].
  - apply respects_ret; typeclasses eauto.
Qed.

Lemma frame_legacy_handlers e : respects (runnerwise Q) (Legacy.handlers e).
Proof.
  destruct e; simpl.
  - apply respects_ret; typeclasses eauto.
  - apply respects_bind; [typeclasses eauto | |intros _];
      apply respects_invocation;
      [apply frame_assignRunnerOnOrderReady
      |apply frame_legacy_updateRunnerOnOrderDelivered].
  - apply respects_invocation, frame_assignOrdersWhenRunnerActivates.
Qed.

Lemma frame_perform op st :
  is_monthly_reset op = false → runnerwise Q st (perform op st).
Proof.
  intros Hop. destruct op; simpl.
  - apply frame_handlers.
  - apply frame_legacy_handlers.
  - apply frame_resetDailyCompletedOrders.
  - done.
Qed.

Lemma frame_perform_all ops st :
  forallb (λ op, negb (is_monthly_reset op)) ops = true →
  runnerwise Q st (perform_all ops st).
Proof.
  revert st. induction ops as [|op ops IH]; intros st Hops; simpl.
  - reflexivity.
  - simpl in Hops. apply andb_true_iff in Hops as [Hop Hops].
    transitivity (perform op st).
    + apply frame_perform. by apply negb_true_iff.
    + by apply IH.
Qed.

Hypothesis Q_monthly : ∀ r, Q r (set_totalCompletedOrders 0 r).

Lemma frame_resetMonthlyCompletedOrders :
  respects (runnerwise Q) Current.resetMonthlyCompletedOrders.
Proof.
  unfold Current.resetMonthlyCompletedOrders.
  apply respects_bind; [typeclasses eauto | apply respects_get; typeclasses eauto |].
  intros snapshot. apply respects_batch_update; [typeclasses eauto|].
  intros doc. apply runnerwise_update_runner; [typeclasses eauto | apply Q_monthly].
Qed.

Lemma frame_perform_any op st : runnerwise Q st (perform op st).
Proof.
  destruct op; [apply frame_perform; done .. |].
  apply frame_resetMonthlyCompletedOrders.
Qed.

Lemma frame_perform_all_any ops st : runnerwise Q st (perform_all ops st).
Proof.
  revert st. induction ops as [|op ops IH]; intros st; simpl.
  - reflexivity.
  - transitivity (perform op st); [apply frame_perform_any | apply IH].
Qed.
End RunnerFrame.

(** ** The scheduled resets *)

Lemma update_runner_completes runnerId f st :
  is_Some (runners_col st !! runnerId) → (update_runner runnerId f st).1.1 = Some tt.
Proof. intros [r Hr]. unfold update_runner. by rewrite Hr. Qed.

Lemma update_order_completes orderId f st :
  is_Some (orders_col st !! orderId) → (update_order orderId f st).1.1 = Some tt.
Proof. intros [o Ho]. unfold update_order. by rewrite Ho. Qed.

Lemma batch_update_runners (f : Runner → Runner) (l : list (string * Runner)) st :
  (∀ r, f (f r) = f r) →
  (∀ doc, doc ∈ l → is_Some (runners_col st !! doc.1)) →
  orders_col (run_handler (batch_update (λ doc, update_runner doc.1 f) l) st).1
  = orders_col st
  ∧ ∀ k, runners_col (run_handler (batch_update (λ doc, update_runner doc.1 f) l) st).1 !! k
         = if decide (k ∈ l.*1) then f <$> runners_col st !! k
           else runners_col st !! k.
Proof.
  intros Hidem. revert st. induction l as [|x l IH]; intros st Hex.
  - cbn [batch_update]. rewrite run_handler_ret. split; [done|]. intros k.
    case_decide as Hk; [|done]. by apply elem_of_nil in Hk.
  - cbn [batch_update]. rewrite run_handler_bind.
    rewrite update_runner_completes by (apply Hex, elem_of_cons; auto).
    rewrite update_runner_store.
    destruct (IH (mkStore (orders_col st) (alter f x.1 (runners_col st)))) as [Ho Hr].
    { intros doc Hdoc. simpl. apply lookup_alter_is_Some. apply Hex, elem_of_cons; auto. }
    split; [by rewrite Ho|].
    intros k. rewrite Hr. cbn [runners_col]. rewrite lookup_alter.
    destruct (decide (k ∈ (x :: l).*1)) as [Hk'|Hk'];
      destruct (decide (k ∈ l.*1)) as [Hk|Hk];
      destruct (decide (x.1 = k)) as [<-|Hx]; try done.
    + destruct (runners_col st !! x.1); simpl; [by rewrite Hidem|done].
    + cbn in Hk'. apply elem_of_cons in Hk'. destruct Hk'; congruence.
    + exfalso. apply Hk'. cbn. apply elem_of_cons. auto.
    + exfalso. apply Hk'. cbn. apply elem_of_cons. auto.
    + exfalso. apply Hk'. cbn. apply elem_of_cons. auto.
Qed.

Lemma reset_runners (f : Runner → Runner) st :
  (∀ r, f (f r) = f r) →
  (run_handler
     (snapshot ← get (λ st, docs (runners_col st));
      batch_update (λ doc, update_runner doc.1 f) snapshot) st).1
  = mkStore (orders_col st) (f <$> runners_col st).
Proof.
  intros Hidem. rewrite run_handler_bind, get_completes, run_handler_get.
  destruct (batch_update_runners f (docs (runners_col st)) st Hidem) as [Ho Hr].
  { intros [k v] Hin. apply elem_of_docs in Hin. simpl. by rewrite Hin. }
  destruct (run_handler _ st).1 as [os rs]. simpl in *. subst os. f_equal.
  apply map_eq. intros k. rewrite Hr, lookup_fmap.
  case_decide as Hk; [done|].
  destruct (runners_col st !! k) as [v|] eqn:Hv; [|done].
  exfalso. apply Hk. apply list_elem_of_fmap. exists (k, v). split; [done|].
  by apply elem_of_docs.
Qed.

Lemma perform_DailyReset st :
  perform DailyReset st = mkStore (orders_col st) (set_completedOrders 0 <$> runners_col st).
Proof. apply reset_runners. done. Qed.

Lemma perform_MonthlyReset st :
  perform MonthlyReset st
  = mkStore (orders_col st) (set_totalCompletedOrders 0 <$> runners_col st).
Proof. apply reset_runners. done. Qed.

(** ** The completed-orders counters *)

#[global] Instance keeps_preorder {A : Type} (P : A → Prop) : PreOrder (keeps P).
Proof. split; unfold keeps; [intros x; tauto | intros x y z; tauto]. Qed.

Lemma keeps_counters_ordered f :
  runner_update f → ∀ r, keeps counters_ordered r (f r).
Proof.
  intros Hf r. unfold keeps, counters_ordered.
  destruct Hf; simpl; lia.
Qed.

Lemma runnerwise_keeps (P : Runner → Prop) st st' :
  runnerwise (keeps P) st st' →
  (∀ runnerId r, runners_col st !! runnerId = Some r → P r) →
  ∀ runnerId r, runners_col st' !! runnerId = Some r → P r.
Proof.
  intros Hrel HP runnerId r' Hr'. specialize (Hrel runnerId).
  rewrite Hr' in Hrel. inversion Hrel as [r ? Hkeep Hr|]; subst.
  apply Hkeep. apply (HP runnerId). done.
Qed.

Lemma counters_in_order_kept ops st :
  forallb (λ op, negb (is_monthly_reset op)) ops = true →
  counters_in_order st → counters_in_order (perform_all ops st).
Proof.
  intros Hops Hst.
  assert (Hrel : runnerwise (keeps counters_ordered) st (perform_all ops st)).
  { apply frame_perform_all; [typeclasses eauto | apply keeps_counters_ordered | done]. }
  exact (runnerwise_keeps counters_ordered st _ Hrel Hst).
Qed.

Lemma counters_in_order_after_both_resets st :
  counters_in_order (perform DailyReset (perform MonthlyReset st))
  ∧ counters_in_order (perform MonthlyReset (perform DailyReset st)).
Proof.
  rewrite !perform_DailyReset, !perform_MonthlyReset. unfold counters_in_order.
  cbn [runners_col orders_col].
  split; intros runnerId r; rewrite !lookup_fmap;
    destruct (runners_col st !! runnerId) as [r0|]; simpl; intros [= <-];
    unfold counters_ordered; simpl; lia.
Qed.

Lemma perform_all_app ops1 ops2 st :
  perform_all (ops1 ++ ops2) st = perform_all ops2 (perform_all ops1 st).
Proof. apply fold_left_app. Qed.

(** C6, as the code has it.  For every runner, 0 ≤ completedOrders ≤
    totalCompletedOrders is kept by every sequence of deliveries of events
    (assignments, delivery completions) and daily resets, and it holds
    after a monthly reset paired with the daily reset, in either order and
    whatever the store was before; the monthly reset by itself is left
    out. *)
Theorem completed_le_total_apart_from_monthly_reset
    (before ops : list Operation) (st : Store) :
  forallb (λ op, negb (is_monthly_reset op)) ops = true →
  (counters_in_order st → counters_in_order (perform_all ops st))
  ∧ counters_in_order (perform_all (before ++ [MonthlyReset; DailyReset] ++ ops) st)
  ∧ counters_in_order (perform_all (before ++ [DailyReset; MonthlyReset] ++ ops) st).
Proof.
  intros Hops. split; [by apply counters_in_order_kept|].
  rewrite !perform_all_app.
  split; apply counters_in_order_kept; try done; simpl;
    apply counters_in_order_after_both_resets.
Qed.

Lemma completed_le_total_apart_from_monthly_reset_witness :
  forallb (λ op, negb (is_monthly_reset op)) [Deliver heads delivered_event; DailyReset]
  = true
  ∧ counters_in_order store_one_delivery
  ∧ counters_in_order
      (perform_all [Deliver heads delivered_event; DailyReset] store_one_delivery)
  ∧ counters_in_order
      (perform_all ([Deliver heads delivered_event] ++ [MonthlyReset; DailyReset]
                    ++ [Deliver heads delivered_event; DailyReset]) store_one_delivery).
Proof.
  assert (Hst : counters_in_order store_one_delivery).
  { intros runnerId r. unfold store_one_delivery. simpl.
    intros [<- <-]%lookup_singleton_Some. unfold counters_ordered. simpl. lia. }
  destruct (completed_le_total_apart_from_monthly_reset
              [Deliver heads delivered_event]
              [Deliver heads delivered_event; DailyReset]
              store_one_delivery eq_refl) as (Hkept & Hpaired & _).
  split; [reflexivity|]. split; [exact Hst|]. split; [exact (Hkept Hst) | exact Hpaired].
Defined.

(** C6, as stated, fails: after one delivery the monthly reset leaves the
    runner with completedOrders = 1 above totalCompletedOrders = 0. *)
Lemma monthly_reset_breaks_completed_le_total :
  completed_le_total store_one_delivery
  ∧ ¬ completed_le_total
        (perform_all [Deliver heads delivered_event; MonthlyReset] store_one_delivery).
Proof.
  split.
  - intros runnerId r. unfold store_one_delivery. simpl.
    intros [<- <-]%lookup_singleton_Some. simpl. lia.
  - intros Hle.
    assert (Hr : runners_col
              (perform_all [Deliver heads delivered_event; MonthlyReset]
                 store_one_delivery) !! "r1"
            = Some (mkRunner true 0 1 0 ["o1"])) by (vm_compute; reflexivity).
    specialize (Hle _ _ Hr). simpl in Hle. lia.
Qed.

(** ** The sort and the fairness order *)

Section SortSpec.
Context {A : Type} (comparefn : A → A → nat → Z * nat).

Lemma insert_sorted_Permutation x l k :
  (insert_sorted comparefn x l k).1 ≡ₚ x :: l.
Proof.
  revert k. induction l as [|y l IH]; intros k; simpl; [done|].
  destruct (comparefn x y k) as [c k1]. destruct (c <? 0); simpl; [done|].
  specialize (IH k1). destruct (insert_sorted comparefn x l k1) as [r k2].
  simpl in *. rewrite IH. apply Permutation_swap.
Qed.

Lemma sort_into_Permutation acc l k :
  (sort_into comparefn acc l k).1 ≡ₚ acc ++ l.
Proof.
  revert acc k. induction l as [|x l IH]; intros acc k; simpl.
  - by rewrite app_nil_r.
  - pose proof (insert_sorted_Permutation x acc k) as Hins.
    destruct (insert_sorted comparefn x acc k) as [acc' k1]. simpl in Hins.
    rewrite IH, Hins. simpl. apply Permutation_middle.
Qed.

Lemma Array_sort_Permutation l : Array_sort comparefn l ≡ₚ l.
Proof. unfold Array_sort. by rewrite sort_into_Permutation. Qed.

(** [le] is an order the comparator decides by its sign whenever it does
    not leave the answer to chance. *)
Context (le : relation A) `{!PreOrder le}.
Hypothesis compare_negative : ∀ x y k, (comparefn x y k).1 < 0 → le x y.
Hypothesis compare_other : ∀ x y k, ¬ (comparefn x y k).1 < 0 → le y x.

Lemma insert_sorted_StronglySorted x l k :
  StronglySorted le l → StronglySorted le (insert_sorted comparefn x l k).1.
Proof.
  revert k. induction l as [|y l IH]; intros k Hsorted; simpl.
  - repeat constructor.
  - pose proof (compare_negative x y k) as Hneg.
    pose proof (compare_other x y k) as Hoth.
    destruct (comparefn x y k) as [c k1]. simpl in Hneg, Hoth.
    destruct (Z.ltb_spec c 0) as [Hc|Hc]; simpl.
    + apply StronglySorted_cons in Hsorted as Hyl. destruct Hyl as [Hy Hl].
      constructor; [done|]. constructor; [by apply Hneg|].
      eapply Forall_impl; [exact Hy|]. intros z Hyz. simpl in Hyz.
      transitivity y; [by apply Hneg | done].
    + apply StronglySorted_cons in Hsorted as [Hy Hl].
      specialize (IH k1 Hl).
      pose proof (insert_sorted_Permutation x l k1) as Hperm.
      destruct (insert_sorted comparefn x l k1) as [r k2]. simpl in *.
      constructor; [done|]. rewrite Hperm. constructor; [|done].
      apply Hoth. lia.
Qed.

Lemma sort_into_StronglySorted acc l k :
  StronglySorted le acc → StronglySorted le (sort_into comparefn acc l k).1.
Proof.
  revert acc k. induction l as [|x l IH]; intros acc k Hacc; simpl; [done|].
  pose proof (insert_sorted_StronglySorted x acc k Hacc) as Hins.
  destruct (insert_sorted comparefn x acc k) as [acc' k1]. by apply IH.
Qed.

Lemma Array_sort_head_least l x :
  head (Array_sort comparefn l) = Some x → x ∈ l ∧ ∀ y, y ∈ l → le x y.
Proof.
  intros Hhead.
  pose proof (Array_sort_Permutation l) as Hperm.
  pose proof (sort_into_StronglySorted [] l 0%nat (SSorted_nil le)) as Hsorted.
  fold (Array_sort comparefn l) in Hsorted.
  destruct (Array_sort comparefn l) as [|z sorted]; [done|].
  simpl in Hhead. injection Hhead as ->.
  apply StronglySorted_cons in Hsorted as [Hx _].
  split.
  - rewrite <- Hperm. apply elem_of_cons. auto.
  - intros y Hy. rewrite <- Hperm in Hy. apply elem_of_cons in Hy as [->|Hy].
    + reflexivity.
    + rewrite Forall_forall in Hx. by apply Hx.
Qed.

Lemma Array_sort_head_None l : head (Array_sort comparefn l) = None → l = [].
Proof.
  intros Hhead. pose proof (Array_sort_Permutation l) as Hperm.
  destruct (Array_sort comparefn l); [|done].
  by apply Permutation_nil_l in Hperm.
Qed.
End SortSpec.

(** ** The runner selector *)

#[global] Instance fairness_le_preorder : PreOrder fairness_le.
Proof.
  split.
  - intros x. unfold fairness_le. lia.
  - intros x y z. unfold fairness_le. lia.
Qed.

Lemma fairness_compare_negative rnd x y k :
  (Current.fairness_compare rnd x y k).1 < 0 → fairness_le x y.
Proof.
  unfold Current.fairness_compare, fairness_le.
  destruct (Z.eqb_spec (activeOrders x.2) (activeOrders y.2)); simpl; [|lia].
  destruct (Z.eqb_spec (completedOrders x.2) (completedOrders y.2)); simpl; lia.
Qed.

Lemma fairness_compare_other rnd x y k :
  ¬ (Current.fairness_compare rnd x y k).1 < 0 → fairness_le y x.
Proof.
  unfold Current.fairness_compare, fairness_le.
  destruct (Z.eqb_spec (activeOrders x.2) (activeOrders y.2)); simpl; [|lia].
  destruct (Z.eqb_spec (completedOrders x.2) (completedOrders y.2)); simpl; lia.
Qed.


Lemma elem_of_filteredRunners st t doc :
  doc ∈ omap id
          (map (λ doc, if Current.runnerHasConflictingDelivery st doc.1 t
                       then None else Some doc)
               (List.filter (λ doc, isActive doc.2) (docs (runners_col st))))
  ↔ eligible st t doc.
Proof.
  rewrite list_elem_of_omap. unfold eligible. split.
  - intros (x & Hx & Hid). simpl in Hid. subst x.
    apply list_elem_of_In, in_map_iff in Hx as (d & Hd & Hin).
    apply filter_In in Hin as [Hin Hact]. apply In_docs in Hin.
    destruct (Current.runnerHasConflictingDelivery st d.1 t) eqn:Hc; [done|].
    injection Hd as ->. auto.
  - intros (Hlook & Hact & Hc). exists (Some doc). split; [|done].
    apply list_elem_of_In, in_map_iff. exists doc. rewrite Hc. split; [done|].
    apply filter_In. split; [by apply In_docs | done].
Qed.

Lemma findSuitableRunner_Some rnd st t doc :
  Current.findSuitableRunner rnd st t = Some doc →
  eligible st t doc ∧ ∀ doc', eligible st t doc' → fairness_le doc doc'.
Proof.
  unfold Current.findSuitableRunner.
  destruct (List.filter _ (docs (runners_col st))) as [|d0 snapshot] eqn:Hsnap; [done|].
  rewrite <- Hsnap.
  destruct (omap id _) as [|d1 filtered] eqn:Hfil; [done|].
  rewrite <- Hfil. intros Hhead.
  apply (Array_sort_head_least _ fairness_le
           (fairness_compare_negative rnd) (fairness_compare_other rnd)) in Hhead.
  destruct Hhead as [Hin Hleast]. split.
  - by apply elem_of_filteredRunners.
  - intros doc' Hdoc'. apply Hleast. by apply elem_of_filteredRunners.
Qed.

Lemma findSuitableRunner_None rnd st t :
  Current.findSuitableRunner rnd st t = None ↔ ∀ doc, ¬ eligible st t doc.
Proof.
  split.
  - unfold Current.findSuitableRunner.
    destruct (List.filter _ (docs (runners_col st))) as [|d0 snapshot] eqn:Hsnap.
    + intros _ doc (Hlook & Hact & _).
      assert (Hin : In doc (List.filter (λ doc, isActive doc.2) (docs (runners_col st))))
        by (apply filter_In; split; [by apply In_docs | done]).
      rewrite Hsnap in Hin. destruct Hin.
    + rewrite <- Hsnap.
      destruct (omap id _) as [|d1 filtered] eqn:Hfil.
      * intros _ doc Hdoc. apply elem_of_filteredRunners in Hdoc.
        rewrite Hfil in Hdoc. by apply elem_of_nil in Hdoc.
      * intros Hhead. apply Array_sort_head_None in Hhead. discriminate.
  - intros Hnone. destruct (Current.findSuitableRunner rnd st t) as [doc|] eqn:Hfind;
      [|done].
    apply findSuitableRunner_Some in Hfind as [Hdoc _]. by destruct (Hnone doc).
Qed.

Lemma store_three_tied_lookup runnerId r :
  runners_col store_three_tied !! runnerId = Some r →
  (runnerId = "a" ∨ runnerId = "b" ∨ runnerId = "c") ∧ r = idle_runner.
Proof.
  unfold store_three_tied. simpl. intros H.
  repeat (apply lookup_insert_Some in H as [[<- <-]|[? H]]; [auto|]).
  by rewrite lookup_empty in H.
Qed.

Lemma store_three_tied_least_loaded runnerId :
  runnerId = "a" ∨ runnerId = "b" ∨ runnerId = "c" →
  least_loaded store_three_tied "18:00" (runnerId, idle_runner).
Proof.
  intros Hid. split.
  - destruct Hid as [-> | [-> | ->]]; repeat split; vm_compute; reflexivity.
  - intros [k r] (Hlook & _). apply store_three_tied_lookup in Hlook as [_ Hr].
    simpl in Hr. subst r. unfold fairness_le. simpl. lia.
Qed.

Lemma store_three_tied_chosen rnd :
  chosen rnd store_three_tied "18:00" = Some "a"
  ∨ chosen rnd store_three_tied "18:00" = Some "b"
  ∨ chosen rnd store_three_tied "18:00" = Some "c".
Proof.
  unfold chosen.
  destruct (Current.findSuitableRunner rnd store_three_tied "18:00") as [[k r]|] eqn:Hfind.
  - apply findSuitableRunner_Some in Hfind as [(Hlook & _) _].
    apply store_three_tied_lookup in Hlook as [Hk _]. simpl in *.
    destruct Hk as [-> | [-> | ->]]; auto.
  - exfalso. rewrite findSuitableRunner_None in Hfind.
    apply (Hfind ("a", idle_runner)).
    apply (store_three_tied_least_loaded "a"). auto.
Qed.

(** The outcomes of the first three calls decide the selection among three
    tied runners: the sort asks for no more. *)
Lemma three_flips_decide rnd :
  chosen rnd store_three_tied "18:00"
  = chosen (random_of [rnd 0%nat; rnd 1%nat; rnd 2%nat]) store_three_tied "18:00".
Proof.
  vm_compute. destruct (rnd 0%nat), (rnd 1%nat); reflexivity.
Qed.

Lemma length_all_flips n : length (all_flips n) = (2 ^ n)%nat.
Proof.
  induction n as [|n IH]; [done|].
  cbn [all_flips]. rewrite length_app, !length_map, IH. simpl. lia.
Qed.

Lemma filter_three_way {B : Type} (p q r : B → bool) (l : list B) :
  (∀ x, (p x = true ∧ q x = false ∧ r x = false)
        ∨ (p x = false ∧ q x = true ∧ r x = false)
        ∨ (p x = false ∧ q x = false ∧ r x = true)) →
  (length (List.filter p l) + length (List.filter q l) + length (List.filter r l))%nat
  = length l.
Proof.
  intros Hone. induction l as [|x l IH]; [done|]. simpl.
  destruct (Hone x) as [(-> & -> & ->) | [(-> & -> & ->) | (-> & -> & ->)]];
    simpl; lia.
Qed.

Lemma times_chosen_three_tied n :
  (times_chosen n store_three_tied "18:00" "a"
   + times_chosen n store_three_tied "18:00" "b"
   + times_chosen n store_three_tied "18:00" "c")%nat = (2 ^ n)%nat.
Proof.
  unfold times_chosen. rewrite filter_three_way; [apply length_all_flips|].
  intros flips.
  destruct (store_three_tied_chosen (random_of flips)) as [-> | [-> | ->]];
    rewrite !bool_decide_eq_true, !bool_decide_eq_false;
    [left | right; left | right; right]; repeat split; congruence.
Qed.

Lemma power_of_two_not_multiple_of_three (n m : nat) : (2 ^ n)%nat ≠ (3 * m)%nat.
Proof.
  assert (H : ∃ q, (2 ^ n = 3 * q + 1 ∨ 2 ^ n = 3 * q + 2)%nat).
  { induction n as [|n [q IH]]; [exists 0%nat; by left|].
    rewrite Nat.pow_succ_r'.
    destruct IH as [-> | ->]; [exists (2 * q)%nat | exists (2 * q + 1)%nat]; lia. }
  destruct H as [q H]. lia.
Qed.

(** However many outcomes are counted, the three tied runners are not
    selected equally often: a third of a power of two is no number. *)
Lemma tie_break_never_uniform n : ¬ uniform_tie_break n store_three_tied "18:00".
Proof.
  intros Huni.
  pose proof (Huni ("a", idle_runner) ("b", idle_runner)
                (store_three_tied_least_loaded "a" ltac:(auto))
                (store_three_tied_least_loaded "b" ltac:(auto))) as Hab.
  pose proof (Huni ("b", idle_runner) ("c", idle_runner)
                (store_three_tied_least_loaded "b" ltac:(auto))
                (store_three_tied_least_loaded "c" ltac:(auto))) as Hbc.
  simpl in Hab, Hbc.
  pose proof (times_chosen_three_tied n) as Hsum.
  apply (power_of_two_not_multiple_of_three n
           (times_chosen n store_three_tied "18:00" "c")). lia.
Qed.



(** ** Assignment on order creation *)

Lemma update_order_exact orderId f st o :
  orders_col st !! orderId = Some o →
  update_order orderId f st
  = (Some tt, mkStore (<[orderId := f o]> (orders_col st)) (runners_col st),
     if decide (o = f o) then [] else [OrderUpdated orderId o (f o)]).
Proof. intros H. unfold update_order. by rewrite H. Qed.

Lemma update_runner_exact runnerId f st r :
  runners_col st !! runnerId = Some r →
  update_runner runnerId f st
  = (Some tt, mkStore (orders_col st) (<[runnerId := f r]> (runners_col st)),
     if decide (r = f r) then [] else [RunnerUpdated runnerId r (f r)]).
Proof. intros H. unfold update_runner. by rewrite H. Qed.

Lemma assigned_order_changes runnerId o : runner o = None → o ≠ assigned_order runnerId o.
Proof. intros Hnone Heq. rewrite Heq in Hnone. discriminate. Qed.

Lemma assigned_runner_changes orderId r : r ≠ assigned_runner orderId r.
Proof.
  intros Heq. apply (f_equal activeOrders) in Heq. simpl in Heq. lia.
Qed.

Lemma assigned_runner_twice orderId r :
  assigned_runner orderId (assigned_runner orderId r)
  = union_orders orderId (increment_activeOrders 2 r).
Proof.
  unfold assigned_runner, union_orders, increment_activeOrders, arrayUnion. simpl.
  destruct (decide (orderId ∈ orders r)) as [Hin|Hin].
  - rewrite decide_True by done. f_equal. lia.
  - rewrite decide_True by (apply elem_of_app; right; by apply list_elem_of_singleton).
    f_equal. lia.
Qed.

Lemma deliver_OrderCreated_assigns rnd st orderId order doc :
  orders_col st !! orderId = Some order →
  runner order = None →
  Current.findSuitableRunner rnd st (deliveryTime order) = Some doc →
  Current.deliver rnd (OrderCreated orderId order) st
  = (mkStore (<[orderId := assigned_order doc.1 order]> (orders_col st))
             (<[doc.1 := assigned_runner orderId doc.2]> (runners_col st)),
     [OrderUpdated orderId order (assigned_order doc.1 order);
      RunnerUpdated doc.1 doc.2 (assigned_runner orderId doc.2)]).
Proof.
  intros Ho Hnone Hfind.
  assert (Hr : runners_col st !! doc.1 = Some doc.2).
  { apply findSuitableRunner_Some in Hfind as [(Hlook & _) _]. done. }
  unfold Current.deliver. cbn [Current.handlers].
  unfold Current.assignRunnerOnOrderCreated. rewrite Hnone.
  unfold run_handler, invocation, mbind, Fn_bind, get. rewrite Hfind.
  cbn [fst snd].
  rewrite (update_order_exact _ _ _ _ Ho).
  erewrite update_runner_exact; [|exact Hr].
  fold (assigned_order doc.1 order). fold (assigned_runner orderId doc.2).
  rewrite decide_False by (by apply assigned_order_changes).
  rewrite decide_False by apply assigned_runner_changes.
  reflexivity.
Qed.

Lemma deliver_OrderUpdated_assigned rnd st orderId before after runnerId r :
  orders_col st !! orderId = Some after →
  runners_col st !! runnerId = Some r →
  runner before = None → runner after = Some runnerId →
  waitingForRunner after = None →
  orderStatus before = orderStatus after →
  Current.deliver rnd (OrderUpdated orderId before after) st
  = (mkStore (orders_col st) (<[runnerId := assigned_runner orderId r]> (runners_col st)),
     [RunnerUpdated runnerId r (assigned_runner orderId r)]).
Proof.
  intros Ho Hr Hbefore Hafter Hwait Hstatus.
  assert (Hsame : set_waitingForRunner None after = after).
  { destruct after; simpl in *; by subst. }
  unfold Current.deliver. cbn [Current.handlers].
  unfold Current.onRunnerAssignedToOrder, Current.updateRunnerOnOrderDelivered.
  rewrite Hbefore, Hafter, Hstatus.
  assert (Hguard : bool_decide (orderStatus after ≠ delivered)
                   && bool_decide (orderStatus after = delivered) = false).
  { destruct (decide (orderStatus after = delivered)) as [Hd|Hd].
    - rewrite (bool_decide_eq_false_2 (orderStatus after ≠ delivered)); [done|].
      intros Hn. by apply Hn.
    - rewrite (bool_decide_eq_false_2 (orderStatus after = delivered)) by done.
      apply andb_false_r. }
  rewrite Hguard.
  unfold run_handler, invocation, mbind, Fn_bind.
  rewrite (update_runner_exact _ _ _ _ Hr).
  erewrite update_order_exact; [|exact Ho].
  fold (assigned_runner orderId r). rewrite Hsame.
  rewrite decide_False by apply assigned_runner_changes.
  rewrite decide_True by done.
  cbn. rewrite (insert_id _ _ _ Ho). reflexivity.
Qed.

Lemma deliver_RunnerUpdated rnd st runnerId before after :
  Current.deliver rnd (RunnerUpdated runnerId before after) st = (st, []).
Proof. reflexivity. Qed.

(** Every assignment on creation counts the order twice on the runner:
    once in [assignRunnerOnOrderCreated], once more in
    [onRunnerAssignedToOrder], which the write of the runner field
    triggers. *)
Lemma creation_assignment_counts_twice rnd st orderId order doc :
  orders_col st !! orderId = Some order →
  runner order = None →
  Current.findSuitableRunner rnd st (deliveryTime order) = Some doc →
  Current.settle 4 rnd [OrderCreated orderId order] st
  = Some (mkStore (<[orderId := assigned_order doc.1 order]> (orders_col st))
                  (<[doc.1 := union_orders orderId (increment_activeOrders 2 doc.2)]>
                     (runners_col st))).
Proof.
  intros Ho Hnone Hfind.
  cbn [Current.settle].
  rewrite (deliver_OrderCreated_assigns _ _ _ _ _ Ho Hnone Hfind). cbn [app].
  erewrite (deliver_OrderUpdated_assigned _ _ _ _ _ doc.1 (assigned_runner orderId doc.2));
    [ | apply lookup_insert_eq | apply lookup_insert_eq | done | done | done | done ].
  cbn [app]. rewrite !deliver_RunnerUpdated. cbn [app runners_col orders_col].
  by rewrite insert_insert_eq, assigned_runner_twice.
Qed.

(** C1 in Scenario A.  The order gets the runner and [waitingForRunner] is
    cleared, but the runner's [activeOrders] goes from 0 to 2 once the
    handlers triggered by the assignment have run, not to 1.  The revision
    without [onRunnerAssignedToOrder] takes it to 1. *)
Theorem scenario_A_counts_the_order_twice :
  (∃ st',
     Current.settle 4 heads [OrderCreated "o1" new_order] store_scenario_A = Some st'
     ∧ orders_col st' !! "o1" = Some (mkOrder received "18:00" (Some "r1") None)
     ∧ runners_col st' !! "r1" = Some (mkRunner true 2 0 0 ["o1"]))
  ∧ (∃ st',
       Previous.settle 4 heads [OrderCreated "o1" new_order] store_scenario_A = Some st'
       ∧ orders_col st' !! "o1" = Some (mkOrder received "18:00" (Some "r1") None)
       ∧ runners_col st' !! "r1" = Some (mkRunner true 1 0 0 [])).
Proof.
  split.
  - eexists. split; [|split].
    + apply (creation_assignment_counts_twice heads store_scenario_A "o1" new_order
               ("r1", idle_runner)); vm_compute; reflexivity.
    + vm_compute. reflexivity.
    + vm_compute. reflexivity.
  - eexists. split; [vm_compute; reflexivity|].
    split; vm_compute; reflexivity.
Qed.

(** ** Delivery completion *)

Lemma update_runner_rejected runnerId f st :
  runners_col st !! runnerId = None → update_runner runnerId f st = (None, st, []).
Proof. intros H. unfold update_runner. by rewrite H. Qed.

Lemma run_updateRunnerOnOrderDelivered orderId before after st :
  (run_handler (Current.updateRunnerOnOrderDelivered orderId before after) st).1
  = if shows_delivery before after then
      match runner after with
      | Some runnerRef =>
          mkStore (orders_col st) (alter delivered_runner runnerRef (runners_col st))
      | None => st
      end
    else st.
Proof.
  unfold Current.updateRunnerOnOrderDelivered, shows_delivery.
  destruct (bool_decide (orderStatus before ≠ delivered)
            && bool_decide (orderStatus after = delivered)); simpl; [|done].
  destruct (runner after) as [runnerRef|]; simpl; [|done].
  rewrite ?bool_decide_eq_true_2 by eauto.
  rewrite run_handler_bind, get_completes, run_handler_get.
  destruct (runners_col st !! runnerRef) as [r|] eqn:Hr.
  - apply update_runner_store.
  - rewrite run_handler_ret. destruct st as [os rs]. simpl in *. f_equal.
    apply map_eq. intros k. rewrite lookup_alter. case_decide; subst; by rewrite ?Hr.
Qed.

Lemma run_onRunnerAssignedToOrder orderId before after st :
  (run_handler (Current.onRunnerAssignedToOrder orderId before after) st).1
  = match runner before, runner after with
    | None, Some runnerRef =>
        match runners_col st !! runnerRef with
        | Some _ =>
            mkStore (alter (set_waitingForRunner None) orderId (orders_col st))
                    (alter (assigned_runner orderId) runnerRef (runners_col st))
        | None => st
        end
    | _, _ => st
    end.
Proof.
  unfold Current.onRunnerAssignedToOrder.
  destruct (runner before); [done|]. destruct (runner after) as [runnerRef|]; [|done].
  rewrite run_handler_bind.
  destruct (runners_col st !! runnerRef) as [r|] eqn:Hr.
  - rewrite update_runner_completes by (by rewrite Hr).
    rewrite update_order_store, update_runner_store. done.
  - unfold run_handler. by rewrite !(update_runner_rejected _ _ _ Hr).
Qed.

Lemma deliver_OrderUpdated_steps rnd orderId before after st :
  (Current.deliver rnd (OrderUpdated orderId before after) st).1
  = (run_handler (Current.updateRunnerOnOrderDelivered orderId before after)
       (run_handler (Current.onRunnerAssignedToOrder orderId before after) st).1).1.
Proof.
  unfold Current.deliver. cbn [Current.handlers].
  by rewrite run_handler_bind, invocation_completes, !run_handler_invocation.
Qed.

(** The counters after a delivery completion, in the current revision:
    [activeOrders] goes down by one whatever it was. *)
Lemma delivery_completion_counters orderId before after st runnerRef r :
  orderStatus before ≠ delivered → orderStatus after = delivered →
  runner after = Some runnerRef → runners_col st !! runnerRef = Some r →
  runners_col
    (run_handler (Current.updateRunnerOnOrderDelivered orderId before after) st).1
  !! runnerRef
  = Some (mkRunner (isActive r) (activeOrders r - 1) (completedOrders r + 1)
            (totalCompletedOrders r + 1) (orders r)).
Proof.
  intros Hb Ha Hrun Hr. rewrite run_updateRunnerOnOrderDelivered.
  unfold shows_delivery. rewrite Hrun.
  rewrite !bool_decide_eq_true_2 by eauto. simpl.
  by rewrite lookup_alter_eq, Hr.
Qed.

(** The earlier revision keeps [activeOrders] at 0, and counts no
    completion. *)
Lemma legacy_delivery_completion_counters orderId before after st runnerRef r :
  orderStatus before ≠ delivered → orderStatus after = delivered →
  runner after = Some runnerRef → runners_col st !! runnerRef = Some r →
  ∃ r',
    runners_col
      (run_handler (Legacy.updateRunnerOnOrderDelivered orderId before after) st).1
    !! runnerRef = Some r'
    ∧ activeOrders r' = activeOrders r - (if 0 <? activeOrders r then 1 else 0)
    ∧ completedOrders r' = completedOrders r
    ∧ totalCompletedOrders r' = totalCompletedOrders r.
Proof.
  intros Hb Ha Hrun Hr. unfold Legacy.updateRunnerOnOrderDelivered.
  rewrite Hrun, !bool_decide_eq_true_2 by done. simpl.
  rewrite run_handler_bind, get_completes, run_handler_get, Hr.
  rewrite update_runner_store. simpl. rewrite lookup_alter_eq, Hr. simpl.
  eexists. split; [done|]. simpl.
  destruct (Z.ltb_spec 0 (activeOrders r)); repeat split; lia.
Qed.

(** C4 at a runner whose [activeOrders] is 0.  The delivery takes it to
    -1 in the current revision; the counters of completed orders go up by
    one.  The earlier revision leaves it at 0. *)
Theorem delivery_takes_activeOrders_below_zero :
  runners_col (Current.deliver heads delivered_event store_uncounted).1 !! "r1"
  = Some (mkRunner true (-1) 1 1 [])
  ∧ runners_col (Legacy.deliver delivered_event store_uncounted).1 !! "r1"
    = Some (mkRunner true 0 0 0 []).
Proof.
  split.
  - unfold delivered_event. rewrite deliver_OrderUpdated_steps.
    rewrite (delivery_completion_counters "o1" order_picked order_delivered _ "r1"
               idle_runner); done.
  - vm_compute. reflexivity.
Qed.

(** ** Redelivery of an update event *)

Lemma alter_missing {A : Type} (f : A → A) (m : gmap string A) (i : string) :
  m !! i = None → alter f i m = m.
Proof.
  intros Hi. apply map_eq. intros k. rewrite lookup_alter.
  case_decide; subst; by rewrite ?Hi.
Qed.

Lemma alter_id_fun {A : Type} (m : gmap string A) (i : string) : alter id i m = m.
Proof. by apply alter_id. Qed.

Lemma alter_idempotent {A : Type} (f : A → A) (m : gmap string A) (i : string) :
  (∀ x, f (f x) = f x) → alter f i (alter f i m) = alter f i m.
Proof.
  intros Hf. rewrite alter_alter_eq. apply alter_ext. intros x _. apply Hf.
Qed.

Lemma store_eta st : mkStore (orders_col st) (runners_col st) = st.
Proof. by destruct st. Qed.

Lemma deliver_OrderUpdated_store rnd orderId before after st :
  (Current.deliver rnd (OrderUpdated orderId before after) st).1
  = match runner after with
    | Some runnerRef =>
        match runners_col st !! runnerRef with
        | Some _ =>
            mkStore (alter (order_effect before after) orderId (orders_col st))
                    (alter (runner_effect orderId before after) runnerRef (runners_col st))
        | None => st
        end
    | None => st
    end.
Proof.
  rewrite deliver_OrderUpdated_steps, run_updateRunnerOnOrderDelivered,
    run_onRunnerAssignedToOrder.
  unfold order_effect, runner_effect, shows_assignment, shows_delivery.
  destruct (runner after) as [runnerRef|]; simpl.
  2:{ rewrite andb_false_r. by destruct (runner before). }
  rewrite !andb_true_r.
  destruct (runners_col st !! runnerRef) as [r|] eqn:Hr;
    destruct (runner before) as [rb|]; simpl;
    destruct (bool_decide (orderStatus before ≠ delivered)
              && bool_decide (orderStatus after = delivered)); simpl;
    rewrite ?alter_id_fun, ?store_eta, ?(alter_missing _ _ _ Hr), ?store_eta;
    try done.
  by rewrite alter_alter_eq.
Qed.

Lemma deliver_OrderUpdated_no_change rnd orderId before after st :
  shows_assignment before after = false →
  shows_delivery before after = false →
  Current.deliver rnd (OrderUpdated orderId before after) st = (st, []).
Proof.
  unfold shows_assignment, shows_delivery, Current.deliver. cbn [Current.handlers].
  unfold Current.onRunnerAssignedToOrder, Current.updateRunnerOnOrderDelivered.
  destruct (runner after) as [runnerRef|]; simpl.
  - rewrite !andb_true_r. intros Hb Hd. apply bool_decide_eq_false in Hb.
    destruct (runner before); [|done]. by rewrite Hd.
  - intros _ _.
    destruct (runner before);
      by destruct (bool_decide (orderStatus before ≠ delivered)
                   && bool_decide (orderStatus after = delivered)).
Qed.

Lemma order_effect_idempotent before after o :
  order_effect before after (order_effect before after o) = order_effect before after o.
Proof. unfold order_effect. by destruct (shows_assignment before after). Qed.

Lemma arrayUnion_idempotent x l : arrayUnion x (arrayUnion x l) = arrayUnion x l.
Proof.
  unfold arrayUnion. destruct (decide (x ∈ l)) as [Hin|Hin].
  - by rewrite decide_True.
  - rewrite decide_True; [done|]. apply elem_of_app. right.
    by apply list_elem_of_singleton.
Qed.

Lemma runner_effect_shift orderId before after r :
  same_shift r (runner_effect orderId before after r)
    (runner_effect orderId before after (runner_effect orderId before after r)).
Proof.
  unfold runner_effect, same_shift.
  destruct (shows_delivery before after), (shows_assignment before after); simpl;
    rewrite ?arrayUnion_idempotent; repeat split; lia.
Qed.

Lemma same_shift_unchanged r : same_shift r r r.
Proof. unfold same_shift. repeat split; lia. Qed.

(** C5, as the code has it.  An update event that shows no assignment and
    no delivery changes nothing and raises nothing.  Handling an update
    event a second time leaves the orders as they are after the first
    time, and the runner's [orders] array too, but it shifts each counter
    again by what the first time shifted it. *)
Theorem replay_shifts_the_counters_again rnd orderId before after st :
  (shows_assignment before after = false → shows_delivery before after = false →
   Current.deliver rnd (OrderUpdated orderId before after) st = (st, []))
  ∧ orders_col
      (Current.deliver rnd (OrderUpdated orderId before after)
         (Current.deliver rnd (OrderUpdated orderId before after) st).1).1
    = orders_col (Current.deliver rnd (OrderUpdated orderId before after) st).1
  ∧ ∀ runnerId r0,
      runners_col st !! runnerId = Some r0 →
      ∃ r1 r2,
        runners_col (Current.deliver rnd (OrderUpdated orderId before after) st).1
          !! runnerId = Some r1
        ∧ runners_col
            (Current.deliver rnd (OrderUpdated orderId before after)
               (Current.deliver rnd (OrderUpdated orderId before after) st).1).1
          !! runnerId = Some r2
        ∧ same_shift r0 r1 r2.
Proof.
  split; [apply deliver_OrderUpdated_no_change|].
  rewrite (deliver_OrderUpdated_store rnd orderId before after st).
  destruct (runner after) as [runnerRef|] eqn:Hafter.
  2:{ rewrite deliver_OrderUpdated_store, Hafter. split; [done|].
      intros runnerId r0 Hr0. exists r0, r0. auto using same_shift_unchanged. }
  destruct (runners_col st !! runnerRef) as [r|] eqn:Hr.
  2:{ rewrite deliver_OrderUpdated_store, Hafter, Hr. split; [done|].
      intros runnerId r0 Hr0. exists r0, r0. auto using same_shift_unchanged. }
  rewrite deliver_OrderUpdated_store, Hafter. cbn [runners_col orders_col].
  rewrite lookup_alter_eq, Hr. cbn [fmap option_fmap option_map runners_col orders_col].
  split.
  - apply alter_idempotent, order_effect_idempotent.
  - intros runnerId r0 Hr0.
    destruct (decide (runnerRef = runnerId)) as [->|Hne].
    + rewrite !lookup_alter_eq, Hr0. simpl. eexists _, _.
      split; [done|]. split; [done|]. apply runner_effect_shift.
    + rewrite !lookup_alter_ne by done.
      exists r0, r0. auto using same_shift_unchanged.
Qed.

(** C5, as stated, fails: the same delivery event handled twice takes
    [activeOrders] down twice and the completion counters up twice, and the
    same assignment event handled twice counts the order twice. *)
Lemma replayed_event_counts_again :
  runners_col (perform (Deliver heads delivered_event) store_one_delivery) !! "r1"
  = Some (mkRunner true 0 1 1 ["o1"])
  ∧ runners_col
      (perform (Deliver heads delivered_event)
         (perform (Deliver heads delivered_event) store_one_delivery)) !! "r1"
    = Some (mkRunner true (-1) 2 2 ["o1"])
  ∧ runners_col (perform (Deliver heads assignment_event) store_assigned) !! "r1"
    = Some (mkRunner true 1 0 0 ["o1"])
  ∧ runners_col
      (perform (Deliver heads assignment_event)
         (perform (Deliver heads assignment_event) store_assigned)) !! "r1"
    = Some (mkRunner true 2 0 0 ["o1"]).
Proof. repeat split; vm_compute; reflexivity. Qed.

(** ** The [orders] array of a runner *)

#[global] Instance orders_grow_preorder : PreOrder orders_grow.
Proof.
  split.
  - intros r. unfold orders_grow. reflexivity.
  - intros r1 r2 r3. unfold orders_grow. intros H12 H23. by transitivity (orders r2).
Qed.

Lemma arrayUnion_prefix x l : l `prefix_of` arrayUnion x l.
Proof.
  unfold arrayUnion. destruct (decide (x ∈ l)); [reflexivity|].
  by apply prefix_app_r.
Qed.

Lemma elem_of_arrayUnion x l : x ∈ arrayUnion x l.
Proof.
  unfold arrayUnion. destruct (decide (x ∈ l)); [done|].
  apply elem_of_app. right. by apply list_elem_of_singleton.
Qed.

Lemma orders_grow_update f : runner_update f → ∀ r, orders_grow r (f r).
Proof.
  intros Hf r. unfold orders_grow.
  destruct Hf; simpl; try reflexivity. apply arrayUnion_prefix.
Qed.

(** C10.  An assignment on creation and an assignment seen on update both
    leave the order in the runner's [orders] array; a delivery completion
    leaves the array as it is; and whatever the functions do, in any
    number and order, the array a runner had is a prefix of the array it
    has afterwards. *)
Theorem orders_array_only_grows rnd st :
  (∀ orderId order doc,
     orders_col st !! orderId = Some order → runner order = None →
     Current.findSuitableRunner rnd st (deliveryTime order) = Some doc →
     ∃ r', runners_col (Current.deliver rnd (OrderCreated orderId order) st).1 !! doc.1
           = Some r'
           ∧ orderId ∈ orders r')
  ∧ (∀ orderId before after runnerRef r,
       runner before = None → runner after = Some runnerRef →
       runners_col st !! runnerRef = Some r →
       ∃ r', runners_col (Current.deliver rnd (OrderUpdated orderId before after) st).1
               !! runnerRef = Some r'
             ∧ orderId ∈ orders r')
  ∧ (∀ orderId before after runnerId r,
       runners_col st !! runnerId = Some r →
       ∃ r', runners_col
               (run_handler (Current.updateRunnerOnOrderDelivered orderId before after) st).1
               !! runnerId = Some r'
             ∧ orders r' = orders r)
  ∧ (∀ ops runnerId r,
       runners_col st !! runnerId = Some r →
       ∃ r', runners_col (perform_all ops st) !! runnerId = Some r'
             ∧ orders r `prefix_of` orders r').
Proof.
  split; [|split; [|split]].
  - intros orderId order doc Ho Hnone Hfind.
    rewrite (deliver_OrderCreated_assigns _ _ _ _ _ Ho Hnone Hfind). simpl.
    rewrite lookup_insert_eq. eexists. split; [done|]. simpl.
    apply elem_of_arrayUnion.
  - intros orderId before after runnerRef r Hb Ha Hr.
    rewrite deliver_OrderUpdated_store, Ha, Hr. simpl.
    rewrite lookup_alter_eq, Hr. simpl. eexists. split; [done|].
    unfold runner_effect, shows_assignment. rewrite Hb, Ha.
    rewrite !bool_decide_eq_true_2 by eauto. simpl.
    destruct (shows_delivery before after); simpl; apply elem_of_arrayUnion.
  - intros orderId before after runnerId r Hr.
    rewrite run_updateRunnerOnOrderDelivered.
    destruct (shows_delivery before after); [|eauto].
    destruct (runner after) as [runnerRef|]; [|eauto]. simpl.
    rewrite lookup_alter. case_decide; subst; rewrite Hr; simpl; eauto.
  - intros ops runnerId r Hr.
    pose proof (frame_perform_all_any orders_grow orders_grow_update
                  ltac:(intros; unfold orders_grow; reflexivity) ops st runnerId)
      as Hgrow.
    rewrite Hr in Hgrow. inversion Hgrow as [? r' Hrr' |]; subst. eauto.
Qed.

(** ** Delivery times that are no times *)





(** ** Concurrent invocations *)

(** An invocation that takes its three steps with nothing in between does
    what the handler does. *)
Lemma steps_agree_with_handler rnd orderId order st :
  (Current.interleave rnd rnd [true; true; true]
     (Current.start orderId order) (Current.Finished None) st).2
  = (run_handler (Current.assignRunnerOnOrderCreated rnd orderId order) st).1.
Proof.
  unfold Current.start, Current.assignRunnerOnOrderCreated.
  destruct (runner order); [done|].
  rewrite run_handler_bind, get_completes, run_handler_get.
  cbn [Current.interleave Current.step].
  destruct (Current.findSuitableRunner rnd st (deliveryTime order)) as [doc|].
  - rewrite run_handler_bind. unfold run_handler.
    destruct (update_order orderId _ st) as [[[[]|] st1] ev1]; [|done].
    cbn [Current.interleave Current.step snd fst]. unfold run_handler.
    by destruct (update_runner doc.1 _ st1) as [[? ?] ?].
  - cbn [Current.interleave Current.step snd fst]. unfold run_handler.
    by destruct (update_order orderId _ st) as [[? ?] ?].
Qed.

(** C9.  Two orders for 18:00 are created together.  When both
    invocations select before either writes, both read the runner r1 with
    [activeOrders] 0 and both assign it: r1 ends with the two orders, an
    hour apart by none.  One invocation after the other, the second one
    finds r1 in conflict and takes r2. *)
Theorem concurrent_creations_select_the_same_runner :
  ∃ st_raced st_serial,
    Current.interleave heads heads racing_schedule
      (Current.start "o1" new_order) (Current.start "o2" new_order) store_race
    = (Current.Finished (Some ("r1", idle_runner)),
       Current.Finished (Some ("r1", idle_runner)), st_raced)
    ∧ activeOrders idle_runner = 0
    ∧ runner <$> orders_col st_raced !! "o1" = Some (Some "r1")
    ∧ runner <$> orders_col st_raced !! "o2" = Some (Some "r1")
    ∧ runners_col st_raced !! "r1" = Some (mkRunner true 2 0 0 ["o1"; "o2"])
    ∧ Current.interleave heads heads serial_schedule
        (Current.start "o1" new_order) (Current.start "o2" new_order) store_race
      = (Current.Finished (Some ("r1", idle_runner)),
         Current.Finished (Some ("r2", second_runner)), st_serial).
Proof.
  eexists _, _. split; [vm_compute; reflexivity|].
  repeat split; vm_compute; reflexivity.
Qed.

(** ** The runner of an order *)

#[global] Instance keeps_runner_preorder : PreOrder keeps_runner.
Proof.
  split.
  - intros o r. done.
  - intros o1 o2 o3 H12 H23 r Hr. by apply H23, H12.
Qed.

#[global] Instance assignment_kept_preorder : PreOrder assignment_kept.
Proof.
  split.
  - intros st Hst. split; [done|]. reflexivity.
  - intros st1 st2 st3 H12 H23 H1.
    destruct (H12 H1) as [H2 Ho12]. destruct (H23 H2) as [H3 Ho23].
    split; [done|]. by transitivity st2.
Qed.























(** * Further properties *)

(** ** The least busy runner (earlier revision) *)

Lemma least_busy_leb_le a b : Is_true (Legacy.least_busy_leb a b) ↔ least_busy_le a b.
Proof.
  unfold Legacy.least_busy_leb, least_busy_le, String.le.
  rewrite !orb_True, !andb_True, !orb_True, !andb_True.
  rewrite !Is_true_true, !Z.ltb_lt, !Z.eqb_eq. done.
Qed.

#[global] Instance least_busy_leb_total : Total (λ a b, Is_true (Legacy.least_busy_leb a b)).
Proof.
  intros a b. rewrite !least_busy_leb_le. unfold least_busy_le.
  destruct (Z.lt_total (completedOrders a.2) (completedOrders b.2)) as [?|[Hc|?]];
    [by left; left | | by right; left].
  destruct (Z.lt_total (activeOrders a.2) (activeOrders b.2)) as [?|[Ha|?]];
    [left; right; split; [done|]; by left | | right; right; split; [done|]; by left].
  destruct (total String.le a.1 b.1); [left|right]; right; (split; [done|]); right; done.
Qed.

#[global] Instance least_busy_leb_trans :
  Transitive (λ a b, Is_true (Legacy.least_busy_leb a b)).
Proof.
  intros a b c. rewrite !least_busy_leb_le. unfold least_busy_le.
  intros Hab Hbc.
  assert (String.le a.1 b.1 → String.le b.1 c.1 → String.le a.1 c.1)
    by (intros; by etransitivity).
  destruct Hab as [?|[? [?|[? ?]]]], Hbc as [?|[? [?|[? ?]]]];
    try (left; lia); right; (split; [lia|]); try (left; lia).
  right. split; [lia|]. auto.
Qed.

Lemma least_busy_le_antisym st a b :
  active_doc st a → active_doc st b →
  least_busy_le a b → least_busy_le b a → a = b.
Proof.
  intros [Ha _] [Hb _] Hab Hba. unfold least_busy_le in *.
  assert (Hid : a.1 = b.1).
  { destruct Hab as [?|[? [?|[? Hle]]]], Hba as [?|[? [?|[? Hle']]]]; try lia.
    by apply (anti_symm String.le). }
  destruct a as [ka ra], b as [kb rb]. simpl in *. subst kb. congruence.
Qed.

Lemma elem_of_active_docs st doc :
  doc ∈ List.filter (λ doc : string * Runner, isActive doc.2) (docs (runners_col st))
  ↔ active_doc st doc.
Proof.
  rewrite list_elem_of_In, filter_In, In_docs. unfold active_doc. tauto.
Qed.

(** X1.  [findLeastBusyRunner] returns none exactly when no runner is
    active, and otherwise the one active runner that comes first by
    completedOrders, then activeOrders, then document id; the delivery
    time of the order plays no part. *)
Theorem findLeastBusyRunner_least st :
  (Legacy.findLeastBusyRunner st = None ↔
     ∀ runnerId r, runners_col st !! runnerId = Some r → isActive r = false)
  ∧ ∀ doc,
      Legacy.findLeastBusyRunner st = Some doc ↔
      active_doc st doc ∧ ∀ doc', active_doc st doc' → least_busy_le doc doc'.
Proof.
  unfold Legacy.findLeastBusyRunner.
  set (R := λ a b : string * Runner, Is_true (Legacy.least_busy_leb a b)).
  set (active := List.filter (λ doc : string * Runner, isActive doc.2)
                   (docs (runners_col st))).
  pose proof (merge_sort_Permutation R active) as Hperm.
  pose proof (StronglySorted_merge_sort R active) as Hsorted.
  assert (Hsome : ∀ doc, head (merge_sort R active) = Some doc →
            active_doc st doc ∧ ∀ doc', active_doc st doc' → least_busy_le doc doc').
  { intros doc Hhead. destruct (merge_sort R active) as [|d sorted]; [done|].
    simpl in Hhead. injection Hhead as ->.
    apply StronglySorted_cons in Hsorted as [Hall _]. split.
    - apply elem_of_active_docs. fold active. rewrite <- Hperm. apply elem_of_cons. auto.
    - intros doc' Hdoc'. apply elem_of_active_docs in Hdoc'. fold active in Hdoc'.
      rewrite <- Hperm in Hdoc'. apply elem_of_cons in Hdoc' as [->|Hin].
      + apply least_busy_leb_le. destruct (total R doc doc); done.
      + apply least_busy_leb_le. rewrite Forall_forall in Hall. by apply Hall. }
  split.
  - split.
    + intros Hnone runnerId r Hr. apply not_true_is_false. intros Hact.
      assert (Hin : (runnerId, r) ∈ merge_sort R active).
      { rewrite Hperm. by apply elem_of_active_docs. }
      destruct (merge_sort R active); [by apply elem_of_nil in Hin | done].
    + intros Hnone. destruct (head (merge_sort R active)) as [doc|] eqn:Hhead; [|done].
      destruct (Hsome doc eq_refl) as [[Hr Hact] _].
      rewrite (Hnone _ _ Hr) in Hact. discriminate.
  - intros doc. split; [apply Hsome|].
    intros [Hdoc Hleast].
    destruct (head (merge_sort R active)) as [d|] eqn:Hhead.
    + destruct (Hsome d eq_refl) as [Hd Hdleast]. f_equal.
      apply (least_busy_le_antisym st); auto.
    + exfalso. apply elem_of_active_docs in Hdoc. fold active in Hdoc.
      rewrite <- Hperm in Hdoc.
      destruct (merge_sort R active); [by apply elem_of_nil in Hdoc | done].
Qed.

(** ** Assignment when an order becomes ready (earlier revision) *)

(** X2.  [assignRunnerOnOrderReady] writes to no runner document and to no
    order but the one of the event.  When the event shows the order
    becoming ready without a runner, the stored order gets the least busy
    runner and loses its waiting mark, or is marked as waiting when no
    runner is active; any other event leaves the store as it is. *)
Theorem assignRunnerOnOrderReady_effect orderId before after st :
  runners_col (run_handler (Legacy.assignRunnerOnOrderReady orderId before after) st).1
  = runners_col st
  ∧ (∀ k, k ≠ orderId →
       orders_col (run_handler (Legacy.assignRunnerOnOrderReady orderId before after) st).1
         !! k = orders_col st !! k)
  ∧ (orderStatus after = ready → orderStatus before ≠ ready → runner after = None →
     orders_col (run_handler (Legacy.assignRunnerOnOrderReady orderId before after) st).1
       !! orderId
     = match Legacy.findLeastBusyRunner st with
       | Some doc => assigned_order doc.1 <$> orders_col st !! orderId
       | None => set_waitingForRunner (Some true) <$> orders_col st !! orderId
       end)
  ∧ (orderStatus after ≠ ready ∨ orderStatus before = ready ∨ runner after ≠ None →
     run_handler (Legacy.assignRunnerOnOrderReady orderId before after) st = (st, [])).
Proof.
  unfold Legacy.assignRunnerOnOrderReady.
  destruct (decide (orderStatus after = ready)) as [Ha|Ha];
    destruct (decide (orderStatus before ≠ ready)) as [Hb|Hb];
    destruct (decide (runner after = None)) as [Hr|Hr];
    rewrite ?(bool_decide_eq_true_2 _ Ha), ?(bool_decide_eq_false_2 _ Ha),
      ?(bool_decide_eq_true_2 _ Hb), ?(bool_decide_eq_false_2 _ Hb),
      ?(bool_decide_eq_true_2 _ Hr), ?(bool_decide_eq_false_2 _ Hr); simpl;
    try (repeat split; try done; intros; try done;
         match goal with H : _ ∨ _ ∨ _ |- _ => destruct H as [?|[?|?]] end; done).
  rewrite run_handler_bind, get_completes, run_handler_get.
  destruct (Legacy.findLeastBusyRunner st) as [doc|];
    rewrite update_order_store; simpl;
    (split; [done|]); (split; [intros k Hk; by rewrite lookup_alter_ne|]);
    (split; [intros _ _ _; by rewrite lookup_alter_eq|]);
    intros [?|[?|?]]; try done; by destruct Hb.
Qed.

(** ** Bulk assignment when a runner becomes active (earlier revision) *)

Lemma fill_batch_take {A : Type} (count : Z) (l : list A) :
  0 ≤ count ≤ 5 →
  Legacy.fill_batch count l
  = (take (Z.to_nat (5 - count)) l, Z.min 5 (count + Z.of_nat (length l))).
Proof.
  revert count. induction l as [|doc l IH]; intros count Hc; simpl.
  - f_equal; [by rewrite take_nil | lia].
  - destruct (Z.ltb_spec count 5) as [Hlt|Hge].
    + rewrite IH by lia.
      replace (Z.to_nat (5 - count)) with (S (Z.to_nat (5 - (count + 1)))) by lia.
      simpl. f_equal. lia.
    + rewrite IH by lia. replace (5 - count) with 0 by lia. simpl. f_equal. lia.
Qed.

Lemma batch_update_orders (f : Order → Order) (l : list (string * Order)) st :
  (∀ o, f (f o) = f o) →
  (∀ doc, doc ∈ l → is_Some (orders_col st !! doc.1)) →
  (batch_update (λ doc, update_order doc.1 f) l st).1.1 = Some tt
  ∧ runners_col (run_handler (batch_update (λ doc, update_order doc.1 f) l) st).1
    = runners_col st
  ∧ ∀ k, orders_col (run_handler (batch_update (λ doc, update_order doc.1 f) l) st).1 !! k
         = if decide (k ∈ l.*1) then f <$> orders_col st !! k
           else orders_col st !! k.
Proof.
  intros Hidem. revert st. induction l as [|x l IH]; intros st Hex.
  - cbn [batch_update]. rewrite run_handler_ret. split; [done|]. split; [done|].
    intros k. case_decide as Hk; [|done]. by apply elem_of_nil in Hk.
  - assert (Hx : (update_order x.1 f st).1.1 = Some tt)
      by (apply update_order_completes, Hex, elem_of_cons; auto).
    destruct (IH (mkStore (alter f x.1 (orders_col st)) (runners_col st)))
      as (Hdone & Hrs & Hos).
    { intros doc Hdoc. simpl. apply lookup_alter_is_Some. apply Hex, elem_of_cons; auto. }
    cbn [batch_update]. rewrite run_handler_bind, Hx, update_order_store.
    split; [|split; [by rewrite Hrs|]].
    + unfold mbind, Fn_bind.
      pose proof (update_order_store x.1 f st) as Hst. unfold run_handler in Hst.
      destruct (update_order x.1 f st) as [[res st1] ev1]. simpl in Hx, Hst. subst.
      destruct (batch_update _ l _) as [[res2 st2] ev2]. done.
    + intros k. rewrite Hos. cbn [orders_col]. rewrite lookup_alter.
      destruct (decide (k ∈ (x :: l).*1)) as [Hk'|Hk'];
        destruct (decide (k ∈ l.*1)) as [Hk|Hk];
        destruct (decide (x.1 = k)) as [<-|Hne]; try done.
      * destruct (orders_col st !! x.1); simpl; [by rewrite Hidem|done].
      * cbn in Hk'. apply elem_of_cons in Hk'. destruct Hk'; congruence.
      * exfalso. apply Hk'. cbn. apply elem_of_cons. auto.
      * exfalso. apply Hk'. cbn. apply elem_of_cons. auto.
      * exfalso. apply Hk'. cbn. apply elem_of_cons. auto.
Qed.

Lemma assigned_order_idempotent runnerId o :
  assigned_order runnerId (assigned_order runnerId o) = assigned_order runnerId o.
Proof. done. Qed.

Lemma elem_of_waiting_orders st doc :
  doc ∈ waiting_orders st
  ↔ orders_col st !! doc.1 = Some doc.2 ∧ waitingForRunner doc.2 = Some true.
Proof.
  unfold waiting_orders. rewrite list_elem_of_In, filter_In, In_docs.
  by rewrite bool_decide_eq_true.
Qed.

Lemma bulk_path_store runnerId before after st r :
  runners_col st !! runnerId = Some r →
  isActive before ≠ isActive after → isActive after = true →
  waiting_orders st ≠ [] →
  (∀ k, orders_col
          (run_handler (Legacy.assignOrdersWhenRunnerActivates runnerId before after) st).1
          !! k
        = if decide (k ∈ (take 5 (waiting_orders st)).*1)
          then assigned_order runnerId <$> orders_col st !! k
          else orders_col st !! k)
  ∧ runners_col
      (run_handler (Legacy.assignOrdersWhenRunnerActivates runnerId before after) st).1
    = <[runnerId :=
          set_isActive (bool_decide (length (waiting_orders st) < 5)%nat)
            (increment_activeOrders
               (Z.of_nat (length (take 5 (waiting_orders st)))) r)]> (runners_col st).
Proof.
  intros Hr Hchange Hact Hwaiting. unfold Legacy.assignOrdersWhenRunnerActivates.
  rewrite (bool_decide_eq_true_2 _ Hchange), Hact. simpl.
  rewrite run_handler_bind, get_completes, run_handler_get.
  fold (waiting_orders st).
  assert (Hmatch : ∀ (X Y : Fn unit) (l : list (string * Order)),
            l ≠ [] → match l with [] => X | _ :: _ => Y end = Y)
    by (intros ? ? [|]; done).
  rewrite Hmatch by done.
  rewrite fill_batch_take by lia. change (Z.to_nat (5 - 0)) with 5%nat.
  destruct (batch_update_orders (assigned_order runnerId)
              (take 5 (waiting_orders st)) st (assigned_order_idempotent runnerId))
    as (Hdone & Hrs & Hos).
  { intros doc Hdoc. apply subseteq_take in Hdoc.
    apply elem_of_waiting_orders in Hdoc as [Hlook _]. by rewrite Hlook. }
  rewrite run_handler_bind.
  change (λ o : Order, set_waitingForRunner None (set_runner (Some runnerId) o))
    with (assigned_order runnerId).
  rewrite Hdone, update_runner_store. cbn [orders_col runners_col].
  split; [exact Hos|]. rewrite Hrs.
  apply map_eq. intros k. rewrite lookup_alter, lookup_insert.
  case_decide; subst; [|done]. rewrite Hr. simpl. f_equal.
  rewrite length_take.
  assert (Hcount : Z.min 5 (0 + Z.of_nat (length (waiting_orders st)))
                   = Z.of_nat (5 `min` length (waiting_orders st))) by lia.
  rewrite Hcount. f_equal.
  destruct (Z.eqb_spec (Z.of_nat (5 `min` length (waiting_orders st))) 5) as [He|He].
  + rewrite bool_decide_eq_false_2; [done|lia].
  + rewrite bool_decide_eq_true_2; [done|lia].
Qed.

(** X3.  When a runner becomes active and orders are waiting, the bulk
    path gives the first five of them in the order of their ids (all of
    them when fewer) to this runner and clears their waiting mark, leaves
    every other order alone, raises the runner's activeOrders by the number
    taken, and switches the runner off again exactly when it took five.
    With no order waiting, or for any other runner event, nothing is
    written. *)
Theorem bulk_assignment_effect runnerId before after st r :
  runners_col st !! runnerId = Some r →
  (isActive before ≠ isActive after → isActive after = true →
   waiting_orders st ≠ [] →
   (∀ k, orders_col
           (run_handler (Legacy.assignOrdersWhenRunnerActivates runnerId before after) st).1
           !! k
         = if decide (k ∈ (take 5 (waiting_orders st)).*1)
           then assigned_order runnerId <$> orders_col st !! k
           else orders_col st !! k)
   ∧ runners_col
       (run_handler (Legacy.assignOrdersWhenRunnerActivates runnerId before after) st).1
     = <[runnerId :=
           set_isActive (bool_decide (length (waiting_orders st) < 5)%nat)
             (increment_activeOrders
                (Z.of_nat (length (take 5 (waiting_orders st)))) r)]> (runners_col st))
  ∧ (isActive before = isActive after ∨ isActive after = false
     ∨ waiting_orders st = [] →
     run_handler (Legacy.assignOrdersWhenRunnerActivates runnerId before after) st
     = (st, [])).
Proof.
  intros Hr. split.
  - intros Hchange Hact Hwaiting. by apply bulk_path_store.
  - unfold Legacy.assignOrdersWhenRunnerActivates. intros Hno.
    destruct (decide (isActive before ≠ isActive after)) as [Hchange|Hsame].
    2:{ by rewrite (bool_decide_eq_false_2 _ Hsame). }
    rewrite (bool_decide_eq_true_2 _ Hchange). simpl.
    destruct (isActive after) eqn:Hact; [|done].
    destruct Hno as [?|[?|Hw]]; [done..|].
    unfold run_handler, mbind, Fn_bind, get. fold (waiting_orders st). by rewrite Hw.
Qed.

(** ** The counter of active orders in the earlier revision *)





Lemma bulk_assignment_effect_witness :
  runners_col store_six_waiting !! "r1" = Some idle_runner
  ∧ runners_col
      (run_handler (Legacy.assignOrdersWhenRunnerActivates "r1" runner_offline idle_runner)
         store_six_waiting).1 !! "r1"
    = Some (mkRunner false 5 0 0 [])
  ∧ orders_col
      (run_handler (Legacy.assignOrdersWhenRunnerActivates "r1" runner_offline idle_runner)
         store_six_waiting).1 !! "o5"
    = Some (mkOrder ready "18:00" (Some "r1") None)
  ∧ orders_col
      (run_handler (Legacy.assignOrdersWhenRunnerActivates "r1" runner_offline idle_runner)
         store_six_waiting).1 !! "o6"
    = Some order_waiting.
Proof.
  destruct (bulk_assignment_effect "r1" runner_offline idle_runner store_six_waiting
              idle_runner eq_refl) as [Heffect _].
  destruct Heffect as [Ho Hr]; [done | done | by vm_compute |].
  split; [reflexivity|]. rewrite Hr, !Ho. vm_compute. done.
Defined.


(** ** Delivery completion in the earlier revision *)

Lemma legacy_delivery_run orderId before after st runnerRef r :
  orderStatus before ≠ delivered → orderStatus after = delivered →
  runner after = Some runnerRef → runners_col st !! runnerRef = Some r →
  run_handler (Legacy.updateRunnerOnOrderDelivered orderId before after) st
  = let a := activeOrders r - (if 0 <? activeOrders r then 1 else 0) in
    let r' := set_isActive (a <? 5)
                (increment_activeOrders (- (if 0 <? activeOrders r then 1 else 0)) r) in
    (mkStore (orders_col st) (<[runnerRef := r']> (runners_col st)),
     if decide (r = r') then [] else [RunnerUpdated runnerRef r r']).
Proof.
  intros Hb Ha Hrun Hr. unfold Legacy.updateRunnerOnOrderDelivered.
  rewrite Hrun, !bool_decide_eq_true_2 by done. cbn [andb].
  unfold run_handler, mbind, Fn_bind, get. rewrite Hr.
  by rewrite (update_runner_exact _ _ _ _ Hr).
Qed.

(** X5.  The delivery handler of the earlier revision writes to no order.
    When the event shows an order becoming delivered and its runner
    exists, the runner's activeOrders goes down by one if it was positive
    and stays otherwise, isActive is overwritten with whether the new count
    is below five, whatever it was, and the counters of completed orders
    and the orders array stay as they are.  Any other event, and one whose
    runner document is missing, leaves the store as it is. *)
Theorem legacy_delivery_effect orderId before after st :
  let out := run_handler (Legacy.updateRunnerOnOrderDelivered orderId before after) st in
  orders_col out.1 = orders_col st
  ∧ (∀ runnerRef r,
       orderStatus before ≠ delivered → orderStatus after = delivered →
       runner after = Some runnerRef → runners_col st !! runnerRef = Some r →
       ∃ r',
         runners_col out.1 = <[runnerRef := r']> (runners_col st)
         ∧ out.2 = (if decide (r = r') then [] else [RunnerUpdated runnerRef r r'])
         ∧ activeOrders r'
           = (if decide (0 < activeOrders r) then activeOrders r - 1 else activeOrders r)
         ∧ isActive r' = bool_decide (activeOrders r' < 5)
         ∧ completedOrders r' = completedOrders r
         ∧ totalCompletedOrders r' = totalCompletedOrders r
         ∧ orders r' = orders r)
  ∧ (orderStatus before = delivered ∨ orderStatus after ≠ delivered
     ∨ runner after = None
     ∨ (∃ runnerRef, runner after = Some runnerRef ∧ runners_col st !! runnerRef = None) →
     out = (st, [])).
Proof.
  intros out. subst out. split; [|split].
  - unfold Legacy.updateRunnerOnOrderDelivered.
    destruct (bool_decide (orderStatus before ≠ delivered)
              && bool_decide (orderStatus after = delivered)); [|done].
    destruct (runner after) as [runnerRef|]; [|done].
    rewrite run_handler_bind, get_completes, run_handler_get.
    destruct (runners_col st !! runnerRef); [|done]. by rewrite update_runner_store.
  - intros runnerRef r Hb Ha Hrun Hr.
    rewrite (legacy_delivery_run _ _ _ _ _ _ Hb Ha Hrun Hr). cbn zeta.
    eexists. split; [reflexivity|]. split; [reflexivity|]. simpl.
    destruct (Z.ltb_spec 0 (activeOrders r)); case_decide; try lia;
      (split; [lia|]); (split; [|done]);
      destruct (Z.ltb_spec (activeOrders r - 1) 5);
      destruct (Z.ltb_spec (activeOrders r - 0) 5);
      destruct (Z.ltb_spec (activeOrders r + - 0) 5);
      first [ by rewrite bool_decide_eq_true_2 by lia
            | by rewrite bool_decide_eq_false_2 by lia ].
  - unfold Legacy.updateRunnerOnOrderDelivered. intros Hno.
    destruct (decide (orderStatus before ≠ delivered)) as [Hb|Hb];
      [rewrite (bool_decide_eq_true_2 _ Hb) | by rewrite (bool_decide_eq_false_2 _ Hb)].
    destruct (decide (orderStatus after = delivered)) as [Ha|Ha];
      [rewrite (bool_decide_eq_true_2 _ Ha) | by rewrite (bool_decide_eq_false_2 _ Ha)].
    cbn [andb]. destruct (runner after) as [runnerRef|] eqn:Hrun; [|done].
    destruct Hno as [Hd|[Hd|[Hd|(ρ & Hρ & Hmissing)]]]; [by destruct Hb | done..|].
    injection Hρ as <-. unfold run_handler, mbind, Fn_bind, get. by rewrite Hmissing.
Qed.

Lemma legacy_delivery_effect_witness :
  runners_col
    (run_handler (Legacy.updateRunnerOnOrderDelivered "o1" order_picked order_delivered)
       store_leaving).1 !! "r1"
  = Some (mkRunner true 0 0 0 []).
Proof.
  destruct (legacy_delivery_effect "o1" order_picked order_delivered store_leaving)
    as (_ & Hrunner & _).
  destruct (Hrunner "r1" runner_leaving) as (r' & Hrs & _ & Ha & Hact & Hc & Ht & Ho);
    [done..|].
  rewrite Hrs, lookup_insert_eq. f_equal.
  destruct r' as [act a c t os]. simpl in *. subst. done.
Defined.

(** X6.  In the earlier revision a delivery switches a runner on that was
    switched off when it leaves the runner with fewer than five active
    orders, and the runner event this raises sends the runner down the
    bulk path: the first five waiting orders become the runner's. *)
Theorem delivery_hands_waiting_orders_to_switched_off_runner
    orderId before after st runnerRef r :
  orderStatus before ≠ delivered → orderStatus after = delivered →
  runner after = Some runnerRef → runners_col st !! runnerRef = Some r →
  isActive r = false → activeOrders r ≤ 5 →
  ∃ st1 r',
    Legacy.deliver (OrderUpdated orderId before after) st
    = (st1, [RunnerUpdated runnerRef r r'])
    ∧ isActive r' = true
    ∧ ∀ doc, doc ∈ take 5 (waiting_orders st) →
        orders_col (Legacy.deliver (RunnerUpdated runnerRef r r') st1).1 !! doc.1
        = Some (assigned_order runnerRef doc.2).
Proof.
  intros Hb Ha Hrun Hr Hoff Hfew.
  set (r' := set_isActive true
               (increment_activeOrders (- (if 0 <? activeOrders r then 1 else 0)) r)).
  assert (Hne : r ≠ r').
  { intros Heq. apply (f_equal isActive) in Heq. simpl in Heq. congruence. }
  set (st1 := mkStore (orders_col st) (<[runnerRef := r']> (runners_col st))).
  assert (Hdeliver : Legacy.deliver (OrderUpdated orderId before after) st
                     = (st1, [RunnerUpdated runnerRef r r'])).
  { unfold Legacy.deliver. cbn [Legacy.handlers].
    unfold run_handler at 1. unfold mbind, Fn_bind, invocation.
    assert (Hready : Legacy.assignRunnerOnOrderReady orderId before after st
                     = (Some tt, st, [])).
    { unfold Legacy.assignRunnerOnOrderReady.
      rewrite (bool_decide_eq_false_2 (orderStatus after = ready)) by (by rewrite Ha).
      done. }
    rewrite Hready.
    pose proof (legacy_delivery_run orderId _ _ _ _ _ Hb Ha Hrun Hr) as Hrun'.
    cbn zeta in Hrun'. unfold run_handler in Hrun'.
    destruct (Legacy.updateRunnerOnOrderDelivered orderId before after st)
      as [[res st'] evs].
    replace (activeOrders r - (if 0 <? activeOrders r then 1 else 0) <? 5) with true
      in Hrun'
      by (destruct (Z.ltb_spec 0 (activeOrders r)); symmetry; apply Z.ltb_lt; lia).
    fold r' in Hrun'. rewrite decide_False in Hrun' by done.
    injection Hrun' as -> ->. done. }
  exists st1, r'. split; [exact Hdeliver|]. split; [done|].
  intros doc Hdoc.
  destruct (decide (waiting_orders st = [])) as [Hnil|Hwaiting].
  { rewrite Hnil in Hdoc. by apply elem_of_nil in Hdoc. }
  unfold Legacy.deliver. cbn [Legacy.handlers]. rewrite run_handler_invocation.
  destruct (bulk_path_store runnerRef r r' st1 r') as [Ho _].
  - apply lookup_insert_eq.
  - rewrite Hoff. done.
  - done.
  - done.
  - rewrite Ho. change (waiting_orders st1) with (waiting_orders st).
    rewrite decide_True by (apply list_elem_of_fmap; by exists doc).
    apply subseteq_take, elem_of_waiting_orders in Hdoc as [Hlook _].
    cbn [st1 orders_col]. by rewrite Hlook.
Qed.

Lemma delivery_hands_waiting_orders_to_switched_off_runner_witness :
  ∃ st1 r',
    Legacy.deliver delivered_event store_leaving = (st1, [RunnerUpdated "r1" runner_leaving r'])
    ∧ isActive r' = true
    ∧ orders_col (Legacy.deliver (RunnerUpdated "r1" runner_leaving r') st1).1 !! "o2"
      = Some (mkOrder ready "18:00" (Some "r1") None).
Proof.
  destruct (delivery_hands_waiting_orders_to_switched_off_runner
              "o1" order_picked order_delivered store_leaving "r1" runner_leaving)
    as (st1 & r' & Hdeliver & Hact & Horders); [done | done | done | done | done | done |].
  exists st1, r'. split; [exact Hdeliver|]. split; [exact Hact|].
  apply (Horders ("o2", order_waiting)). vm_compute.
  apply list_elem_of_here.
Defined.

(** ** The scheduled resets *)

(** X7.  The daily reset sets completedOrders to 0 on every runner, the
    monthly reset totalCompletedOrders, and neither writes anything else:
    no order, no other field, no runner added or removed.  Each reset
    repeated changes nothing more, the two commute, and the resets of the
    earlier revision are the same functions. *)
Theorem resets_zero_their_counter st :
  let daily st := (run_handler Current.resetDailyCompletedOrders st).1 in
  let monthly st := (run_handler Current.resetMonthlyCompletedOrders st).1 in
  orders_col (daily st) = orders_col st
  ∧ orders_col (monthly st) = orders_col st
  ∧ (∀ k, runners_col (daily st) !! k = set_completedOrders 0 <$> runners_col st !! k)
  ∧ (∀ k, runners_col (monthly st) !! k
          = set_totalCompletedOrders 0 <$> runners_col st !! k)
  ∧ daily (daily st) = daily st
  ∧ monthly (monthly st) = monthly st
  ∧ daily (monthly st) = monthly (daily st)
  ∧ Legacy.resetDailyCompletedOrders = Current.resetDailyCompletedOrders
  ∧ Legacy.resetMonthlyCompletedOrders = Current.resetMonthlyCompletedOrders.
Proof.
  intros daily monthly.
  assert (Hd : ∀ s, daily s
                    = mkStore (orders_col s) (set_completedOrders 0 <$> runners_col s))
    by (intros s; apply reset_runners; done).
  assert (Hm : ∀ s, monthly s
                    = mkStore (orders_col s) (set_totalCompletedOrders 0 <$> runners_col s))
    by (intros s; apply reset_runners; done).
  repeat split.
  - by rewrite Hd.
  - by rewrite Hm.
  - intros k. by rewrite Hd, <- lookup_fmap.
  - intros k. by rewrite Hm, <- lookup_fmap.
  - rewrite !Hd. cbn [orders_col runners_col]. f_equal.
    rewrite <- map_fmap_compose. by apply map_fmap_ext.
  - rewrite !Hm. cbn [orders_col runners_col]. f_equal.
    rewrite <- map_fmap_compose. by apply map_fmap_ext.
  - rewrite !Hd, !Hm. cbn [orders_col runners_col]. f_equal.
    rewrite <- !map_fmap_compose. by apply map_fmap_ext.
Qed.

(** ** Events that end the cascade *)

Lemma deliver_level_0 rnd e st : level e = 0%nat → Current.deliver rnd e st = (st, []).
Proof.
  destruct e as [orderId order|orderId before after|runnerId before after];
    [done| |done].
  unfold level. destruct (bool_decide (runner before = runner after)) eqn:Hrun;
    [|done].
  destruct (bool_decide (orderStatus before = orderStatus after)) eqn:Hstat; [|done].
  intros _. apply bool_decide_eq_true in Hrun, Hstat.
  unfold Current.deliver. cbn [Current.handlers].
  unfold Current.onRunnerAssignedToOrder, Current.updateRunnerOnOrderDelivered.
  rewrite Hrun, Hstat.
  assert (Hguard : bool_decide (orderStatus after ≠ delivered)
                   && bool_decide (orderStatus after = delivered) = false).
  { destruct (decide (orderStatus after = delivered)) as [Hd|Hd].
    - rewrite (bool_decide_eq_false_2 (orderStatus after ≠ delivered)); [done|].
      intros Hn. by apply Hn.
    - rewrite (bool_decide_eq_false_2 (orderStatus after = delivered)) by done.
      apply andb_false_r. }
  rewrite Hguard. by destruct (runner after).
Qed.

Lemma level_clear_waiting orderId o w :
  level (OrderUpdated orderId o (set_waitingForRunner w o)) = 0%nat.
Proof. unfold level. simpl. by rewrite !bool_decide_eq_true_2. Qed.

Lemma queue_weight_app q1 q2 :
  queue_weight (q1 ++ q2) = (queue_weight q1 + queue_weight q2)%nat.
Proof.
  unfold queue_weight. induction q1 as [|e q1 IH]; [done|].
  cbn in *. rewrite IH. lia.
Qed.

Lemma queue_weight_cons e q :
  queue_weight (e :: q) = (weight e + queue_weight q)%nat.
Proof. reflexivity. Qed.

Lemma weight_le e : (1 ≤ weight e ≤ 6)%nat.
Proof. unfold weight. destruct (level e) as [|[|?]]; lia. Qed.

Lemma weight_OrderUpdated orderId before after :
  (weight (OrderUpdated orderId before after) ≤ 4)%nat.
Proof. unfold weight, level. destruct (_ && _); simpl; lia. Qed.

Lemma raised_update_order orderId f st :
  (update_order orderId f st).2 = []
  ∨ ∃ o, (update_order orderId f st).2 = [OrderUpdated orderId o (f o)].
Proof.
  unfold update_order. destruct (orders_col st !! orderId) as [o|]; [|by left].
  simpl. case_decide; [by left | right; by exists o].
Qed.

Lemma raised_update_runner runnerId f st :
  (queue_weight (update_runner runnerId f st).2 ≤ 1)%nat.
Proof.
  unfold update_runner.
  destruct (runners_col st !! runnerId) as [r|]; [|cbn; lia].
  cbn [snd]. case_decide; cbn; lia.
Qed.

Lemma raised_bind {A B : Type} (m : Fn A) (k : A → Fn B) st :
  (run_handler (m ≫= k) st).2
  = (m st).2 ++ match (m st).1.1 with
                | Some a => (run_handler (k a) (m st).1.2).2
                | None => []
                end.
Proof.
  unfold run_handler, mbind, Fn_bind. destruct (m st) as [[[a|] st1] evs1]; simpl.
  - by destruct (k a st1) as [[res st2] evs2].
  - by rewrite app_nil_r.
Qed.

Lemma raised_invocation {A : Type} (h : Fn A) st :
  (invocation h st).2 = (run_handler h st).2.
Proof. unfold invocation, run_handler. by destruct (h st) as [[res st1] evs]. Qed.

Lemma raised_run_handler {A : Type} (h : Fn A) st : (run_handler h st).2 = (h st).2.
Proof. unfold run_handler. by destruct (h st) as [[res st1] evs]. Qed.

(** Every delivery raises events that stand for fewer deliveries than the
    event delivered. *)
Lemma deliver_weight rnd e st :
  (queue_weight (Current.deliver rnd e st).2 + 1 ≤ weight e)%nat.
Proof.
  destruct (level e) as [|n] eqn:Hlevel.
  { rewrite deliver_level_0 by done. pose proof (weight_le e). cbn. lia. }
  destruct e as [orderId order|orderId before after|runnerId before after];
    [| |done].
  - unfold Current.deliver. cbn [Current.handlers]. rewrite raised_run_handler.
    rewrite raised_invocation. unfold Current.assignRunnerOnOrderCreated.
    change (weight (OrderCreated orderId order)) with 6%nat.
    destruct (runner order); [cbn; lia|].
    rewrite raised_bind. cbn [get fst snd app].
    destruct (Current.findSuitableRunner rnd st (deliveryTime order)) as [doc|].
    + rewrite raised_bind, queue_weight_app. rewrite raised_run_handler.
      pose proof (raised_update_runner doc.1
                    (λ r, union_orders orderId (increment_activeOrders 1 r))) as Hrun.
      destruct (raised_update_order orderId
                  (λ o, set_waitingForRunner None (set_runner (Some doc.1) o)) st)
        as [->|[o ->]].
      * destruct (update_order _ _ st).1.1; [|cbn; lia].
        specialize (Hrun (update_order orderId
                            (λ o, set_waitingForRunner None (set_runner (Some doc.1) o))
                            st).1.2).
        cbn in *. lia.
      * pose proof (weight_OrderUpdated orderId o
                      (set_waitingForRunner None (set_runner (Some doc.1) o))) as Hw.
        destruct (update_order _ _ st).1.1; [|cbn in *; lia].
        specialize (Hrun (update_order orderId
                            (λ o, set_waitingForRunner None (set_runner (Some doc.1) o))
                            st).1.2).
        cbn in *. lia.
    + rewrite raised_run_handler.
      destruct (raised_update_order orderId (set_waitingForRunner (Some true)) st)
        as [->|[o ->]]; [cbn; lia|].
      unfold queue_weight. cbn [fmap list_fmap sum_list]. unfold weight.
      rewrite level_clear_waiting. cbn. lia.
  - assert (Hw : weight (OrderUpdated orderId before after) = 4%nat).
    { unfold weight. rewrite Hlevel. unfold level in Hlevel.
      destruct (_ && _); [done|]. by injection Hlevel as <-. }
    rewrite Hw. unfold Current.deliver. cbn [Current.handlers].
    rewrite raised_bind, queue_weight_app, invocation_completes, !raised_invocation.
    assert (H1 : ∀ s, (queue_weight
                         (run_handler
                            (Current.onRunnerAssignedToOrder orderId before after) s).2
                       ≤ 2)%nat).
    { intros s. unfold Current.onRunnerAssignedToOrder.
      destruct (runner before); [cbn; lia|].
      destruct (runner after) as [runnerRef|]; [|cbn; lia].
      rewrite raised_bind, queue_weight_app, raised_run_handler.
      pose proof (raised_update_runner runnerRef
                    (λ r, union_orders orderId (increment_activeOrders 1 r)) s) as Hrun.
      destruct (update_runner _ _ s).1.1; [|cbn in *; lia].
      destruct (raised_update_order orderId (set_waitingForRunner None)
                  (update_runner runnerRef
                     (λ r, union_orders orderId (increment_activeOrders 1 r)) s).1.2)
        as [->|[o ->]]; [cbn in *; lia|].
      unfold queue_weight at 2. cbn [fmap list_fmap sum_list]. unfold weight at 1.
      rewrite level_clear_waiting. cbn in *. lia. }
    assert (H2 : ∀ s, (queue_weight
                         (run_handler
                            (Current.updateRunnerOnOrderDelivered orderId before after) s).2
                       ≤ 1)%nat).
    { intros s. unfold Current.updateRunnerOnOrderDelivered.
      destruct (_ && _); [|cbn; lia].
      destruct (runner after) as [runnerRef|]; [|cbn; lia].
      rewrite raised_bind. cbn [get fst snd app].
      destruct (runners_col s !! runnerRef); [|cbn; lia].
      rewrite raised_run_handler. apply raised_update_runner. }
    specialize (H1 st).
    specialize (H2 (invocation (Current.onRunnerAssignedToOrder orderId before after)
                      st).1.2).
    rewrite <- raised_invocation, <- raised_run_handler in H2.
    lia.
Qed.

Lemma settle_enough rnd fuel : ∀ queue st,
  (queue_weight queue ≤ fuel)%nat → is_Some (Current.settle fuel rnd queue st).
Proof.
  induction fuel as [|fuel IH]; intros [|e queue] st Hfuel; simpl; [done| |done|].
  - pose proof (weight_le e). rewrite queue_weight_cons in Hfuel. lia.
  - pose proof (deliver_weight rnd e st) as Hraised.
    destruct (Current.deliver rnd e st) as [st' raised]. apply IH.
    rewrite queue_weight_app. rewrite queue_weight_cons in Hfuel.
    cbn [snd] in Hraised. lia.
Qed.

Lemma settle_more_fuel rnd fuel : ∀ fuel' queue st st',
  Current.settle fuel rnd queue st = Some st' → (fuel ≤ fuel')%nat →
  Current.settle fuel' rnd queue st = Some st'.
Proof.
  induction fuel as [|fuel IH]; intros fuel' [|e queue] st st' Hsettle Hle;
    simpl in Hsettle; try done.
  - by destruct fuel'.
  - by destruct fuel'.
  - destruct fuel' as [|fuel']; [lia|]. simpl.
    destruct (Current.deliver rnd e st) as [st1 raised]. apply IH; [done|lia].
Qed.

(** X8.  The cascade always ends.  Whatever the event and the store, the
    deliveries of the event and of the events the handlers raise in turn
    come to an end within six deliveries, in a store that does not depend
    on how many more are allowed: no write of a handler keeps triggering
    handlers without end. *)
Theorem cascade_always_settles rnd e st :
  ∃ st', ∀ fuel, (6 ≤ fuel)%nat → Current.settle fuel rnd [e] st = Some st'.
Proof.
  destruct (settle_enough rnd 6 [e] st) as [st' Hsettle].
  { pose proof (weight_le e). rewrite queue_weight_cons. cbn. lia. }
  exists st'. intros fuel Hfuel. by apply (settle_more_fuel rnd 6).
Qed.

(** ** Creation when no runner can take the order *)

(** X9.  When every active runner has a conflicting delivery (or none is
    active), the creation of an order without a runner marks the stored
    order as waiting and writes nothing else, and the cascade ends there:
    the order keeps no runner, and the runners are as they were. *)
Theorem creation_without_eligible_runner rnd orderId order st fuel :
  runner order = None →
  (∀ runnerId r, runners_col st !! runnerId = Some r → isActive r = true →
     Current.runnerHasConflictingDelivery st runnerId (deliveryTime order) = true) →
  Current.settle (S (S fuel)) rnd [OrderCreated orderId order] st
  = Some (mkStore (alter (set_waitingForRunner (Some true)) orderId (orders_col st))
                  (runners_col st)).
Proof.
  intros Hnone Hbusy.
  assert (Hfind : Current.findSuitableRunner rnd st (deliveryTime order) = None).
  { apply findSuitableRunner_None. intros doc (Hlook & Hact & Hfree).
    rewrite (Hbusy _ _ Hlook Hact) in Hfree. done. }
  cbn [Current.settle]. unfold Current.deliver at 1. cbn [Current.handlers].
  unfold Current.assignRunnerOnOrderCreated. rewrite Hnone.
  unfold run_handler, invocation, mbind, Fn_bind, get. rewrite Hfind. cbn [fst snd].
  destruct (orders_col st !! orderId) as [o|] eqn:Ho.
  - rewrite (update_order_exact _ _ _ _ Ho). cbn [app].
    assert (Hstore : <[orderId := set_waitingForRunner (Some true) o]> (orders_col st)
                     = alter (set_waitingForRunner (Some true)) orderId (orders_col st)).
    { apply map_eq. intros k. rewrite lookup_alter, lookup_insert.
      case_decide; subst; by rewrite ?Ho. }
    rewrite Hstore. case_decide; [done|].
    rewrite deliver_level_0 by apply level_clear_waiting. by destruct fuel.
  - unfold update_order. rewrite Ho. cbn [app]. rewrite (alter_missing _ _ _ Ho).
    by rewrite store_eta.
Qed.

Lemma creation_without_eligible_runner_witness :
  runner new_order = None
  ∧ Current.settle 2 heads [OrderCreated "o2" new_order] store_scenario_B
    = Some (mkStore (<["o1" := order_committed]>
                       {[ "o2" := mkOrder received "18:00" None (Some true) ]})
                    (runners_col store_scenario_B)).
Proof.
  split; [reflexivity|].
  rewrite (creation_without_eligible_runner heads "o2" new_order store_scenario_B 0).
  - reflexivity.
  - reflexivity.
  - intros runnerId r. unfold store_scenario_B. cbn [runners_col].
    intros [[<- <-]|[_ [<- <-]%lookup_singleton_Some]]%lookup_insert_Some.
    + intros _. vm_compute. reflexivity.
    + intros Hact. discriminate.
Defined.

(** ** Counting in the revision without [onRunnerAssignedToOrder] *)

Lemma previous_deliver_same_status rnd orderId before after st :
  orderStatus before = orderStatus after →
  Previous.deliver rnd (OrderUpdated orderId before after) st = (st, []).
Proof.
  intros Hstat. unfold Previous.deliver. cbn [Previous.handlers].
  unfold Current.updateRunnerOnOrderDelivered. rewrite Hstat.
  destruct (decide (orderStatus after = delivered)) as [Hd|Hd].
  - rewrite (bool_decide_eq_false_2 (orderStatus after ≠ delivered)); [done|].
    intros Hn. by apply Hn.
  - rewrite (bool_decide_eq_false_2 (orderStatus after = delivered)) by done.
    by rewrite andb_false_r.
Qed.

Lemma previous_deliver_creation rnd orderId order st o doc :
  orders_col st !! orderId = Some o →
  Current.findSuitableRunner rnd st (deliveryTime order) = Some doc →
  Previous.deliver rnd (OrderCreated orderId order) st
  = (mkStore (<[orderId := assigned_order doc.1 o]> (orders_col st))
             (<[doc.1 := increment_activeOrders 1 doc.2]> (runners_col st)),
     (if decide (o = assigned_order doc.1 o) then []
      else [OrderUpdated orderId o (assigned_order doc.1 o)])
     ++ [RunnerUpdated doc.1 doc.2 (increment_activeOrders 1 doc.2)]).
Proof.
  intros Ho Hfind.
  assert (Hr : runners_col st !! doc.1 = Some doc.2).
  { apply findSuitableRunner_Some in Hfind as [(Hlook & _) _]. done. }
  unfold Previous.deliver. cbn [Previous.handlers].
  unfold Previous.assignRunnerOnOrderCreated.
  unfold run_handler, invocation, mbind, Fn_bind, get. rewrite Hfind. cbn [fst snd].
  rewrite (update_order_exact _ _ _ _ Ho).
  erewrite update_runner_exact; [|exact Hr].
  fold (assigned_order doc.1 o).
  rewrite (decide_False (P := doc.2 = increment_activeOrders 1 doc.2)); [done|].
  intros Heq. apply (f_equal activeOrders) in Heq. simpl in Heq. lia.
Qed.

(** X10.  The revision without [onRunnerAssignedToOrder] counts an order
    once and takes the count back on delivery.  When the selector picks a
    runner for a created order, the cascade ends with the stored order
    assigned and the runner's activeOrders one higher, nothing else
    changed; when the order is then delivered, activeOrders is back at its
    value before the creation, and completedOrders and totalCompletedOrders
    are one higher. *)
Theorem previous_revision_counts_an_order_once rnd orderId order st o doc fuel :
  orders_col st !! orderId = Some o →
  orderStatus o ≠ delivered →
  Current.findSuitableRunner rnd st (deliveryTime order) = Some doc →
  ∃ st1,
    Previous.settle (3 + fuel) rnd [OrderCreated orderId order] st = Some st1
    ∧ orders_col st1 = <[orderId := assigned_order doc.1 o]> (orders_col st)
    ∧ runners_col st1 = <[doc.1 := increment_activeOrders 1 doc.2]> (runners_col st)
    ∧ let picked_up := assigned_order doc.1 o in
      let handed_over := with_status delivered picked_up in
      Previous.settle (2 + fuel) rnd [OrderUpdated orderId picked_up handed_over]
        (mkStore (<[orderId := handed_over]> (orders_col st1)) (runners_col st1))
      = Some (mkStore (<[orderId := handed_over]> (orders_col st1))
                (<[doc.1 := increment_totalCompletedOrders 1
                               (increment_completedOrders 1 doc.2)]> (runners_col st))).
Proof.
  intros Ho Hstat Hfind.
  exists (mkStore (<[orderId := assigned_order doc.1 o]> (orders_col st))
                  (<[doc.1 := increment_activeOrders 1 doc.2]> (runners_col st))).
  split; [|split; [|split]].
  - cbn [Nat.add Previous.settle].
    rewrite (previous_deliver_creation _ _ _ _ _ _ Ho Hfind). cbn [app].
    case_decide; cbn [app].
    + change (Previous.deliver rnd (RunnerUpdated ?k ?b ?a) ?s) with (s, @nil Event).
      cbn [app]. reflexivity.
    + rewrite previous_deliver_same_status by done. cbn [app].
      change (Previous.deliver rnd (RunnerUpdated ?k ?b ?a) ?s) with (s, @nil Event).
      cbn [app]. by destruct fuel.
  - reflexivity.
  - reflexivity.
  - intros picked_up handed_over. cbn [Nat.add Previous.settle orders_col runners_col].
    unfold Previous.deliver at 1. cbn [Previous.handlers].
    unfold Current.updateRunnerOnOrderDelivered.
    rewrite (bool_decide_eq_true_2 (orderStatus picked_up ≠ delivered)) by done.
    rewrite (bool_decide_eq_true_2 (orderStatus handed_over = delivered)) by done.
    cbn [andb]. change (runner handed_over) with (Some doc.1).
    unfold run_handler, invocation, mbind, Fn_bind, get.
    cbn [fst snd runners_col]. rewrite lookup_insert_eq.
    erewrite update_runner_exact; [|cbn [runners_col]; apply lookup_insert_eq].
    cbn [orders_col runners_col app]. rewrite !insert_insert_eq.
    assert (Hback : increment_totalCompletedOrders 1
                      (increment_completedOrders 1
                         (increment_activeOrders (-1) (increment_activeOrders 1 doc.2)))
                    = increment_totalCompletedOrders 1
                        (increment_completedOrders 1 doc.2)).
    { unfold increment_totalCompletedOrders, increment_completedOrders,
        increment_activeOrders. simpl. f_equal. lia. }
    rewrite Hback. case_decide; cbn [app].
    + by destruct fuel.
    + change (Previous.deliver rnd (RunnerUpdated ?k ?b ?a) ?s) with (s, @nil Event).
      cbn [app]. by destruct fuel.
Qed.

Lemma previous_revision_counts_an_order_once_witness :
  ∃ st1,
    Previous.settle 3 heads [OrderCreated "o1" new_order] store_scenario_A = Some st1
    ∧ runners_col st1 !! "r1" = Some (mkRunner true 1 0 0 [])
    ∧ Previous.settle 2 heads
        [OrderUpdated "o1" (assigned_order "r1" new_order)
           (with_status delivered (assigned_order "r1" new_order))]
        (mkStore (<["o1" := with_status delivered (assigned_order "r1" new_order)]>
                    (orders_col st1)) (runners_col st1))
      = Some (mkStore (<["o1" := with_status delivered (assigned_order "r1" new_order)]>
                         (orders_col st1))
                      (<["r1" := mkRunner true 0 1 1 []]> (runners_col store_scenario_A))).
Proof.
  destruct (previous_revision_counts_an_order_once heads "o1" new_order
              store_scenario_A new_order ("r1", idle_runner) 0)
    as (st1 & Hsettle & Ho & Hr & Hdelivery); [reflexivity | done | reflexivity |].
  exists st1. split; [exact Hsettle|]. split; [by rewrite Hr|]. exact Hdelivery.
Defined.

(** ** No second booking within the hour, one creation at a time *)

(** X11.  When creations are handled one after the other, an assignment
    blocks its runner for the hour around the delivery time.  Once the
    cascade of a creation that gave the order to a runner has ended, the
    conflict check of that runner finds a conflict for every delivery time
    less than 60 minutes from the order's, and no later selection for such
    a time returns that runner. *)
Theorem assigned_runner_is_booked_for_the_hour
    rnd orderId order st doc t m m' fuel :
  orders_col st !! orderId = Some order →
  runner order = None →
  Current.committed (orderStatus order) = true →
  Current.findSuitableRunner rnd st (deliveryTime order) = Some doc →
  minutesSinceMidnight (deliveryTime order) = Some m →
  minutesSinceMidnight t = Some m' →
  Z.abs (m' - m) < 60 →
  ∃ st1,
    Current.settle (4 + fuel) rnd [OrderCreated orderId order] st = Some st1
    ∧ Current.runnerHasConflictingDelivery st1 doc.1 t = true
    ∧ ∀ rnd' doc', Current.findSuitableRunner rnd' st1 t = Some doc' → doc'.1 ≠ doc.1.
Proof.
  intros Ho Hnone Hcommitted Hfind Hm Hm' Hnear.
  pose proof (creation_assignment_counts_twice rnd st orderId order doc Ho Hnone Hfind)
    as Hsettle.
  apply (settle_more_fuel rnd 4 (4 + fuel)) in Hsettle; [|lia].
  eexists. split; [exact Hsettle|].
  assert (Hconflict : Current.runnerHasConflictingDelivery
                        (mkStore (<[orderId := assigned_order doc.1 order]> (orders_col st))
                           (<[doc.1 := union_orders orderId
                                         (increment_activeOrders 2 doc.2)]>
                              (runners_col st)))
                        doc.1 t = true).
  { apply conflict_spec. exists (orderId, assigned_order doc.1 order), m, m'.
    split; [|split; [|split]].
    - apply In_assignedOrders. cbn [fst snd orders_col].
      rewrite lookup_insert_eq. done.
    - by apply minutesSinceMidnight_Some.
    - by apply minutesSinceMidnight_Some.
    - done. }
  split; [exact Hconflict|].
  intros rnd' doc' Hfind' Heq.
  apply findSuitableRunner_Some in Hfind' as [(_ & _ & Hfree) _].
  rewrite Heq, Hconflict in Hfree. done.
Qed.

Lemma assigned_runner_is_booked_for_the_hour_witness :
  ∃ st1,
    Current.settle 4 heads [OrderCreated "o1" new_order] store_scenario_A = Some st1
    ∧ Current.runnerHasConflictingDelivery st1 "r1" "18:59" = true
    ∧ ∀ rnd' doc', Current.findSuitableRunner rnd' st1 "18:59" = Some doc' → doc'.1 ≠ "r1".
Proof.
  apply (assigned_runner_is_booked_for_the_hour heads "o1" new_order store_scenario_A
           ("r1", idle_runner) "18:59" 1080 1139 0); try reflexivity.
Defined.

(** * Restaurants *)

(** ** The value [updateIsActive] writes *)



(** ** What [updateIsActive] writes to the store *)

Lemma restaurants_update_lookup restaurantId f rs k :
  (Restaurants.update restaurantId f rs).1 !! k
  = if decide (k = restaurantId) then f <$> rs !! k else rs !! k.
Proof.
  unfold Restaurants.update. destruct (rs !! restaurantId) as [r|] eqn:Hr; simpl.
  - rewrite lookup_insert. destruct (decide (restaurantId = k)) as [<-|Hne].
    + rewrite decide_True by done. by rewrite Hr.
    + by rewrite decide_False by done.
  - case_decide; subst; by rewrite ?Hr.
Qed.

(** X13.  [updateIsActive] writes to the restaurant of the event only,
    and to its [isActive] field only: the opening hours and a manual
    override stay as they are, whatever the stored [isActive] and the
    override say.  When the restaurant document is gone, or the handler
    throws, nothing is written and no event is raised. *)
Theorem updateIsActive_effect now restaurantId after rs :
  let out := Restaurants.updateIsActive now restaurantId after rs in
  (∀ k, k ≠ restaurantId → out.1 !! k = rs !! k)
  ∧ (∀ r value,
       rs !! restaurantId = Some r → Restaurants.newIsActive now after = Some value →
       out = (<[restaurantId := Restaurants.mkRestaurant value (Restaurants.general r)
                                  (Restaurants.manualOverride r)]> rs,
              if decide (Restaurants.isActive r = value) then []
              else [Restaurants.RestaurantUpdated restaurantId r
                      (Restaurants.mkRestaurant value (Restaurants.general r)
                         (Restaurants.manualOverride r))]))
  ∧ (rs !! restaurantId = None ∨ Restaurants.newIsActive now after = None →
     out = (rs, [])).
Proof.
  intros out. subst out. unfold Restaurants.updateIsActive. split; [|split].
  - intros k Hk. destruct (Restaurants.newIsActive now after); [|done].
    rewrite restaurants_update_lookup. by rewrite decide_False.
  - intros r value Hr ->. unfold Restaurants.update. rewrite Hr.
    unfold Restaurants.set_isActive. f_equal.
    destruct (decide (Restaurants.isActive r = value)) as [Hv|Hv].
    + rewrite decide_True; [done|]. destruct r; simpl in *; by subst.
    + rewrite decide_False; [done|]. intros Heq. apply Hv.
      by rewrite Heq at 1.
  - intros [Hr|Hthrows].
    + destruct (Restaurants.newIsActive now after); [|done].
      unfold Restaurants.update. by rewrite Hr.
    + by rewrite Hthrows.
Qed.

Lemma updateIsActive_effect_witness :
  Restaurants.updateIsActive sunday_3am "rest1" restaurant_overridden
    {[ "rest1" := restaurant_overridden ]}
  = ({[ "rest1" := Restaurants.mkRestaurant false {[ "sunday" := sunday_hours ]}
                     (Some (Some 1000)) ]},
     [Restaurants.RestaurantUpdated "rest1" restaurant_overridden
        (Restaurants.mkRestaurant false {[ "sunday" := sunday_hours ]}
           (Some (Some 1000)))]).
Proof.
  destruct (updateIsActive_effect sunday_3am "rest1" restaurant_overridden
              {[ "rest1" := restaurant_overridden ]}) as (_ & Hwrite & _).
  rewrite (Hwrite restaurant_overridden false); [|reflexivity|reflexivity].
  cbn [Restaurants.general Restaurants.manualOverride restaurant_overridden].
  rewrite insert_singleton. reflexivity.
Defined.

(** ** The handler's own write *)

Lemma newIsActive_set_isActive now value r :
  Restaurants.newIsActive now (Restaurants.set_isActive value r)
  = Restaurants.newIsActive now r.
Proof. reflexivity. Qed.

Lemma updateIsActive_again now restaurantId after rs r value :
  rs !! restaurantId = Some r →
  Restaurants.general after = Restaurants.general r →
  Restaurants.newIsActive now after = Some value →
  Restaurants.isActive r = value →
  Restaurants.updateIsActive now restaurantId after rs = (rs, []).
Proof.
  intros Hr Hgeneral Hvalue Hactive. unfold Restaurants.updateIsActive.
  rewrite Hvalue. unfold Restaurants.update. rewrite Hr.
  assert (Hsame : Restaurants.set_isActive value r = r)
    by (destruct r; simpl in *; by subst).
  rewrite Hsame, decide_True by done. by rewrite insert_id.
Qed.

Lemma restaurants_settle_nil fuel now rs : Restaurants.settle fuel now [] rs = Some rs.
Proof. by destruct fuel. Qed.

(** X14.  The update event [updateIsActive] raises by its own write ends
    the cascade: at one reading of the clock, the delivery of an update
    event and of the events raised in turn is over within three deliveries.
    When the event shows the hours the stored document has, the cascade
    leaves the document with [isActive] as the hours of today give it, and
    everything else as it was. *)
Theorem updateIsActive_cascade_settles now restaurantId before after rs :
  ∃ rs',
    (∀ fuel, Restaurants.settle (3 + fuel) now
               [Restaurants.RestaurantUpdated restaurantId before after] rs = Some rs')
    ∧ ∀ r value,
        rs !! restaurantId = Some r →
        Restaurants.general after = Restaurants.general r →
        Restaurants.newIsActive now after = Some value →
        rs' = <[restaurantId := Restaurants.set_isActive value r]> rs.
Proof.
  cbn [Nat.add Restaurants.settle Restaurants.deliver app].
  unfold Restaurants.updateIsActive at 1.
  destruct (Restaurants.newIsActive now after) as [value|] eqn:Hvalue.
  2:{ exists rs. split; [done|]. intros r value _ _ [=]. }
  unfold Restaurants.update at 1.
  destruct (rs !! restaurantId) as [r|] eqn:Hr.
  2:{ exists rs. split; [done|]. intros r' value' [=]. }
  set (r1 := Restaurants.set_isActive value r).
  case_decide as Hchanged.
  { exists (<[restaurantId := r1]> rs). split; [done|].
    intros r' value' [= <-] _ [= <-]. done. }
  cbn [app Restaurants.deliver].
  (* the second delivery decides from the stored document *)
  unfold Restaurants.updateIsActive at 1.
  rewrite (newIsActive_set_isActive now value r : Restaurants.newIsActive now r1 = _).
  destruct (Restaurants.newIsActive now r) as [value2|] eqn:Hvalue2.
  2:{ exists (<[restaurantId := r1]> rs). split; [done|].
      intros r' value' [= <-] _ [= <-]. done. }
  unfold Restaurants.update at 1. rewrite lookup_insert_eq.
  set (r2 := Restaurants.set_isActive value2 r1). rewrite insert_insert_eq.
  case_decide as Hchanged2.
  { exists (<[restaurantId := r2]> rs). split; [done|].
    intros r' value' [= <-] _ [= <-]. by rewrite <- Hchanged2. }
  cbn [app Restaurants.deliver].
  rewrite (updateIsActive_again now restaurantId r2 _ r2 value2);
    [|apply lookup_insert_eq|done|done|done].
  exists (<[restaurantId := r2]> rs). split; [intros fuel; apply restaurants_settle_nil|].
  intros r' value' [= <-] Hgeneral [= <-].
  assert (Hsame : value2 = value).
  { unfold Restaurants.newIsActive in Hvalue, Hvalue2. rewrite Hgeneral in Hvalue.
    congruence. }
  subst value2. exfalso. apply Hchanged2. done.
Qed.

(** ** The weekly clean-up of manual overrides *)

Lemma overridesToDelete_None todayDate snapshot :
  Restaurants.overridesToDelete todayDate snapshot = None
  ↔ ∃ doc, doc ∈ snapshot ∧ undated doc.2.
Proof.
  unfold undated. induction snapshot as [|doc snapshot IH]; simpl.
  - split; [done|]. intros (doc & Hin & _). by apply elem_of_nil in Hin.
  - destruct (Restaurants.manualOverride doc.2) as [[date|]|] eqn:Hov.
    + destruct (Restaurants.overridesToDelete todayDate snapshot) as [batch|]; simpl.
      * split; [done|]. intros (d & [->|Hin]%elem_of_cons & Hd); [congruence|].
        destruct IH as [_ IH]. discriminate IH. eauto.
      * split; [|done]. intros _. destruct IH as [(d & Hin & Hd) _]; [done|].
        exists d. split; [by apply elem_of_cons; right | done].
    + split; [|done]. intros _. exists doc. split; [apply list_elem_of_here | done].
    + rewrite IH. split.
      * intros (d & Hin & Hd). exists d. split; [by apply elem_of_cons; right | done].
      * intros (d & [->|Hin]%elem_of_cons & Hd); [congruence | eauto].
Qed.

Lemma overridesToDelete_Some todayDate snapshot batch k :
  Restaurants.overridesToDelete todayDate snapshot = Some batch →
  k ∈ batch ↔ ∃ r, (k, r) ∈ snapshot ∧ expired todayDate r = true.
Proof.
  unfold expired. revert batch.
  induction snapshot as [|doc snapshot IH]; intros batch; simpl.
  - intros [= <-]. split; [by intros ?%elem_of_nil|].
    intros (r & Hin & _). by apply elem_of_nil in Hin.
  - destruct doc as [id r0]. simpl.
    destruct (Restaurants.manualOverride r0) as [[date|]|] eqn:Hov; [| done |].
    + destruct (Restaurants.overridesToDelete todayDate snapshot) as [batch'|];
        [|done].
      simpl. intros [= <-]. specialize (IH batch' eq_refl).
      destruct (date <? todayDate) eqn:Hlt.
      * rewrite elem_of_cons, IH. split.
        -- intros [->|(r & Hin & Hr)].
           ++ exists r0. rewrite Hov. split; [apply list_elem_of_here | done].
           ++ exists r. split; [by apply elem_of_cons; right | done].
        -- intros (r & [[= -> ->]|Hin]%elem_of_cons & Hr); [by left | right; eauto].
      * rewrite IH. split.
        -- intros (r & Hin & Hr). exists r. split; [by apply elem_of_cons; right | done].
        -- intros (r & [[= -> ->]|Hin]%elem_of_cons & Hr); [|eauto].
           rewrite Hov, Hlt in Hr. done.
    + intros Hbatch. rewrite (IH batch Hbatch). split.
      * intros (r & Hin & Hr). exists r. split; [by apply elem_of_cons; right | done].
      * intros (r & [[= -> ->]|Hin]%elem_of_cons & Hr); [|eauto].
        rewrite Hov in Hr. done.
Qed.

Lemma apply_updates_lookup batch rs k :
  (Restaurants.apply_updates batch rs).1 !! k
  = if decide (k ∈ batch) then Restaurants.delete_manualOverride <$> rs !! k
    else rs !! k.
Proof.
  revert rs. induction batch as [|id batch IH]; intros rs;
    cbn [Restaurants.apply_updates fst].
  - rewrite decide_False; [done|]. by intros ?%elem_of_nil.
  - pose proof (restaurants_update_lookup id Restaurants.delete_manualOverride rs k)
      as Hup.
    destruct (Restaurants.update id Restaurants.delete_manualOverride rs) as [rs1 evs1].
    specialize (IH rs1).
    destruct (Restaurants.apply_updates batch rs1) as [rs2 evs2]. cbn [fst] in *.
    rewrite IH, Hup.
    destruct (decide (k ∈ id :: batch)) as [Hin|Hin];
      destruct (decide (k ∈ batch)) as [Hin'|Hin'];
      destruct (decide (k = id)) as [->|Hne]; try done.
    + by destruct (rs !! id).
    + apply elem_of_cons in Hin as [?|?]; done.
    + exfalso. apply Hin, elem_of_cons. auto.
    + exfalso. apply Hin, elem_of_cons. auto.
    + exfalso. apply Hin, elem_of_cons. auto.
Qed.

Lemma apply_updates_raises batch rs k r :
  k ∈ batch → rs !! k = Some r → r ≠ Restaurants.delete_manualOverride r →
  Restaurants.RestaurantUpdated k r (Restaurants.delete_manualOverride r)
  ∈ (Restaurants.apply_updates batch rs).2.
Proof.
  revert rs. induction batch as [|id batch IH]; intros rs Hin Hr Hne;
    [by apply elem_of_nil in Hin|].
  simpl. destruct (decide (k = id)) as [->|Hk].
  - unfold Restaurants.update. rewrite Hr, decide_False by done.
    destruct (Restaurants.apply_updates batch _) as [rs2 evs2]. simpl.
    apply list_elem_of_here.
  - pose proof (restaurants_update_lookup id Restaurants.delete_manualOverride rs k)
      as Hup.
    rewrite decide_False in Hup by done.
    destruct (Restaurants.update id Restaurants.delete_manualOverride rs) as [rs1 evs1].
    simpl in Hup. specialize (IH rs1).
    destruct (Restaurants.apply_updates batch rs1) as [rs2 evs2]. simpl in *.
    apply elem_of_app. right. apply IH; [|by rewrite Hup|done].
    apply elem_of_cons in Hin as [?|?]; done.
Qed.

Lemma cleanUp_commits now rs batch :
  Restaurants.overridesToDelete (Restaurants.startOfDay now) (docs rs) = Some batch →
  Restaurants.cleanUpManualOverrides now rs = Restaurants.apply_updates batch rs.
Proof.
  intros Hbatch. unfold Restaurants.cleanUpManualOverrides, Restaurants.commit.
  rewrite Hbatch.
  assert (Hall : forallb (λ restaurantId, bool_decide (is_Some (rs !! restaurantId)))
                   batch = true).
  { apply forallb_forall. intros k Hk. apply bool_decide_eq_true.
    apply list_elem_of_In in Hk.
    apply (overridesToDelete_Some _ _ _ k Hbatch) in Hk as (r & Hin & _).
    apply elem_of_docs in Hin. by rewrite Hin. }
  by rewrite Hall.
Qed.

Lemma cleanUp_lookup now rs batch k :
  Restaurants.overridesToDelete (Restaurants.startOfDay now) (docs rs) = Some batch →
  (Restaurants.cleanUpManualOverrides now rs).1 !! k
  = (λ r, if expired (Restaurants.startOfDay now) r
          then Restaurants.delete_manualOverride r else r) <$> rs !! k.
Proof.
  intros Hbatch. rewrite (cleanUp_commits _ _ _ Hbatch), apply_updates_lookup.
  pose proof (overridesToDelete_Some _ _ _ k Hbatch) as Hk.
  destruct (rs !! k) as [r|] eqn:Hr; simpl.
  - destruct (expired (Restaurants.startOfDay now) r) eqn:Hexp.
    + rewrite decide_True; [done|]. apply Hk. exists r. split; [|done].
      by apply elem_of_docs.
    + rewrite decide_False; [done|]. intros (r' & Hin & Hexp')%Hk.
      apply elem_of_docs in Hin. congruence.
  - by case_decide.
Qed.

(** X15.  [cleanUpManualOverrides] deletes the manual override of every
    restaurant whose override is dated before the start of today, and
    writes nothing else: overrides of today or later, [isActive] and the
    hours stay.  One override without a date stops the whole run: the
    error is caught and no override is deleted, the expired ones
    included.  Run again at once, the function writes nothing. *)
Theorem cleanUp_deletes_expired_overrides now rs :
  ((∀ k r, rs !! k = Some r → ¬ undated r) →
   ∀ k, (Restaurants.cleanUpManualOverrides now rs).1 !! k
        = (λ r, if expired (Restaurants.startOfDay now) r
                then Restaurants.delete_manualOverride r else r) <$> rs !! k)
  ∧ ((∃ k r, rs !! k = Some r ∧ undated r) →
     Restaurants.cleanUpManualOverrides now rs = (rs, []))
  ∧ Restaurants.cleanUpManualOverrides now
      (Restaurants.cleanUpManualOverrides now rs).1
    = ((Restaurants.cleanUpManualOverrides now rs).1, []).
Proof.
  destruct (Restaurants.overridesToDelete (Restaurants.startOfDay now) (docs rs))
    as [batch|] eqn:Hbatch.
  - assert (Hdated : ∀ k r, rs !! k = Some r → ¬ undated r).
    { intros k r Hr Hun.
      assert (Hnone : Restaurants.overridesToDelete (Restaurants.startOfDay now)
                        (docs rs) = None).
      { apply overridesToDelete_None. exists (k, r). split; [|done].
        by apply elem_of_docs. }
      congruence. }
    split; [|split].
    + intros _ k. by apply (cleanUp_lookup now rs batch).
    + intros (k & r & Hr & Hun). by destruct (Hdated k r).
    + set (rs1 := (Restaurants.cleanUpManualOverrides now rs).1).
      assert (Hclean : ∀ k r1, rs1 !! k = Some r1 →
                Restaurants.manualOverride r1 ≠ Some None
                ∧ expired (Restaurants.startOfDay now) r1 = false).
      { intros k r1. unfold rs1. rewrite (cleanUp_lookup now rs batch k Hbatch).
        destruct (rs !! k) as [r|] eqn:Hr; [|done]. simpl.
        destruct (expired (Restaurants.startOfDay now) r) eqn:Hexp;
          intros [= <-]; [done|].
        split; [exact (Hdated k r Hr) | done]. }
      destruct (Restaurants.overridesToDelete (Restaurants.startOfDay now) (docs rs1))
        as [batch1|] eqn:Hbatch1.
      * rewrite (cleanUp_commits _ _ _ Hbatch1).
        assert (Hnil : batch1 = []).
        { destruct batch1 as [|k batch1]; [done|]. exfalso.
          destruct (proj1 (overridesToDelete_Some _ _ _ k Hbatch1))
            as (r1 & Hin & Hexp); [apply list_elem_of_here|].
          apply elem_of_docs in Hin. destruct (Hclean k r1 Hin). congruence. }
        by rewrite Hnil.
      * apply overridesToDelete_None in Hbatch1 as ([k r1] & Hin & Hun).
        apply elem_of_docs in Hin. by destruct (Hclean k r1 Hin).
  - assert (Hstops : Restaurants.cleanUpManualOverrides now rs = (rs, [])).
    { unfold Restaurants.cleanUpManualOverrides. by rewrite Hbatch. }
    split; [|split].
    + intros Hdated k. exfalso.
      apply overridesToDelete_None in Hbatch as ([k' r] & Hin & Hun).
      apply elem_of_docs in Hin. exact (Hdated k' r Hin Hun).
    + done.
    + by rewrite !Hstops.
Qed.

Lemma cleanUp_deletes_expired_overrides_witness :
  (Restaurants.cleanUpManualOverrides sunday_3am
     (<["rest1" := restaurant_overridden]> {[ "rest2" := restaurant_undated ]})).1
    !! "rest1" = Some restaurant_overridden
  ∧ (Restaurants.cleanUpManualOverrides sunday_3am
       {[ "rest1" := restaurant_overridden ]}).1 !! "rest1"
    = Some (Restaurants.mkRestaurant true {[ "sunday" := sunday_hours ]} None).
Proof.
  split.
  - destruct (cleanUp_deletes_expired_overrides sunday_3am
                (<["rest1" := restaurant_overridden]> {[ "rest2" := restaurant_undated ]}))
      as (_ & Hstops & _).
    rewrite Hstops; [reflexivity|].
    exists "rest2", restaurant_undated. split; reflexivity.
  - destruct (cleanUp_deletes_expired_overrides sunday_3am
                {[ "rest1" := restaurant_overridden ]}) as (Hdeletes & _).
    rewrite Hdeletes; [reflexivity|].
    intros k r [<- <-]%lookup_singleton_Some. discriminate.
Defined.

(** X16.  The clean-up brings the opening hours back in force.  The
    deletion of an expired override is an update of the restaurant, so
    [updateIsActive] runs on it: whatever [isActive] was set to by hand,
    it is then what the hours of today give at that time. *)
Theorem cleanUp_reevaluates_isActive now rs k r value :
  (∀ k r, rs !! k = Some r → ¬ undated r) →
  rs !! k = Some r →
  expired (Restaurants.startOfDay now) r = true →
  Restaurants.newIsActive now r = Some value →
  Restaurants.RestaurantUpdated k r (Restaurants.delete_manualOverride r)
  ∈ (Restaurants.cleanUpManualOverrides now rs).2
  ∧ (Restaurants.deliver now
       (Restaurants.RestaurantUpdated k r (Restaurants.delete_manualOverride r))
       (Restaurants.cleanUpManualOverrides now rs).1).1 !! k
    = Some (Restaurants.mkRestaurant value (Restaurants.general r) None).
Proof.
  intros Hdated Hr Hexp Hvalue.
  destruct (Restaurants.overridesToDelete (Restaurants.startOfDay now) (docs rs))
    as [batch|] eqn:Hbatch.
  2:{ apply overridesToDelete_None in Hbatch as ([k' r'] & Hin & Hun).
      apply elem_of_docs in Hin. by destruct (Hdated k' r' Hin). }
  split.
  - rewrite (cleanUp_commits _ _ _ Hbatch). apply apply_updates_raises; [|done|].
    + apply (overridesToDelete_Some _ _ _ k Hbatch). exists r.
      split; [by apply elem_of_docs | done].
    + intros Heq. unfold expired in Hexp. rewrite Heq in Hexp. done.
  - cbn [Restaurants.deliver]. unfold Restaurants.updateIsActive.
    change (Restaurants.newIsActive now (Restaurants.delete_manualOverride r))
      with (Restaurants.newIsActive now r).
    rewrite Hvalue, restaurants_update_lookup, decide_True by done.
    rewrite (cleanUp_lookup now rs batch k Hbatch), Hr. simpl. by rewrite Hexp.
Qed.

Lemma cleanUp_reevaluates_isActive_witness :
  Restaurants.isActive restaurant_overridden = true
  ∧ (Restaurants.deliver sunday_3am
       (Restaurants.RestaurantUpdated "rest1" restaurant_overridden
          (Restaurants.delete_manualOverride restaurant_overridden))
       (Restaurants.cleanUpManualOverrides sunday_3am
          {[ "rest1" := restaurant_overridden ]}).1).1 !! "rest1"
    = Some (Restaurants.mkRestaurant false {[ "sunday" := sunday_hours ]} None).
Proof.
  split; [reflexivity|].
  apply (cleanUp_reevaluates_isActive sunday_3am {[ "rest1" := restaurant_overridden ]}
           "rest1" restaurant_overridden false); try reflexivity.
  intros k r [<- <-]%lookup_singleton_Some. discriminate.
Defined.
